(** * Notification delivery demo: a shallow embedding and its properties

    The development follows [backend/app/models.py], [backend/app/broadcaster.py]
    and [backend/app/main.py].  Handlers are written in state-passing style over a
    [World] that holds the table of notifications, the broadcaster's subscriber
    list and the heap of [asyncio.Queue] objects.  Coroutines are cut at their
    suspension points ([await] on the network, [yield]); the scheduler is an
    explicit list of actions. *)

From stdpp Require Import gmap strings list fin_maps sorting.

Set Warnings "-register-all".

Open Scope string_scope.
Open Scope list_scope.
Open Scope Z_scope.

(** ** JSON values and Python dictionaries *)

Inductive json :=
| JNull
| JBool (b : bool)
| JInt (z : Z)
| JStr (s : string)
| JArr (l : list json)
| JObj (m : gmap string json).

(** A [dict] with string keys, as produced by [to_dict] and received as a
    request body. *)
Abbreviation dict := (gmap string json).

(** Outcome of a request handler. *)
Inductive result (A : Type) :=
| Return (status : Z) (body : A)
| HTTPException (status_code : Z) (detail : string)
| Raise (exn : string).
Arguments Return {A} status body.
Arguments HTTPException {A} status_code detail.
Arguments Raise {A} exn.

Definition status_of {A} (r : result A) : Z :=
  match r with
  | Return s _ => s
  | HTTPException s _ => s
  | Raise _ => 500
  end.

(** ** models.py *)

Module Notification.

Record t := mk {
  id : string;                 (* str(uuid) *)
  seq : Z;
  type : string;
  payload : json;
  created_at : option string   (* already in ISO format when present *)
}.

Definition to_dict (self : t) : dict :=
  <["id" := JStr (id self)]>
  (<["seq" := JInt (seq self)]>
  (<["type" := JStr (type self)]>
  (<["payload" := payload self]>
  (<["created_at" := match created_at self with
                     | Some iso => JStr iso
                     | None => JNull
                     end]> ∅)))).

End Notification.

Abbreviation to_dict := Notification.to_dict.

(** ** The table behind the SQLAlchemy session *)

Module Store.

(** Modelled from the spec: the Sequencer/Store of section 4.1
    ([backend/app/database.py] and the SQL engine are not part of the
    sources).  [rows] is the table in insertion order, [sequence] the next
    value of [notification_seq]. *)
Record t := mk {
  rows : list Notification.t;
  sequence : Z
}.

Definition seq_le (a b : Notification.t) : Prop :=
  Notification.seq a ≤ Notification.seq b.

#[global] Instance seq_le_dec a b : Decision (seq_le a b).
Proof. unfold seq_le. apply _. Defined.

#[global] Instance seq_le_total : Total seq_le.
Proof. intros a b. unfold seq_le. lia. Qed.

#[global] Instance seq_le_trans : Transitive seq_le.
Proof. intros a b c. unfold seq_le. lia. Qed.

(** What the engine makes of a write: it stores the row, with [type] as the
    string it keeps in the non-null [String] column, or it aborts the write,
    having drawn a value from the sequence or not. *)
Inductive verdict :=
| Stored (type : string)
| Aborted (drawn : bool).

(** Modelled from the spec: [append] of section 4.1, reached through the
    session of [backend/app/database.py], which is not part of the sources:
    [db.add(Notification(type=.., payload=..)); db.commit(); db.refresh(..)].
    Whether the write goes through, and how the value given for [type] reads
    back, is decided by the engine and is an input here, like [uuid] and
    [now], the values drawn by [uuid.uuid4] and by the server clock.  A
    stored row takes the next value of the sequence; an aborted write adds
    no row. *)
Definition append (ty payload : json) (uuid now : string) (engine : verdict) (db : t)
  : option Notification.t * t :=
  match engine with
  | Stored s =>
      let n := Notification.mk uuid (sequence db) s payload (Some now) in
      (Some n, mk (rows db ++ [n]) (sequence db + 1))
  | Aborted drawn =>
      (None, mk (rows db) (if drawn then sequence db + 1 else sequence db))
  end.

(** [db.query(Notification).filter(Notification.seq > after_seq)
      .order_by(Notification.seq.asc()).limit(limit).all()];
    a negative [LIMIT] is rejected by the engine. *)
Definition range (after_seq limit : Z) (db : t) : option (list Notification.t) :=
  if decide (limit < 0) then None
  else Some (take (Z.to_nat limit)
               (merge_sort seq_le
                  (filter (λ n, after_seq < Notification.seq n) (rows db)))).

End Store.

(** ** broadcaster.py and the shared state *)

(** Identity of an [asyncio.Queue] object. *)
Abbreviation qid := nat.

Record World := mkWorld {
  db : Store.t;
  _subscribers : list qid;            (* broadcaster._subscribers *)
  queues : gmap qid (list dict)       (* contents of every queue object *)
}.

Module Broadcaster.

(** [queue = asyncio.Queue(); self._subscribers.append(queue); return queue] *)
Definition subscribe (w : World) : qid * World :=
  let queue := fresh (dom (queues w)) in
  (queue, mkWorld (db w) (_subscribers w ++ [queue]) (<[queue := []]> (queues w))).

(** [list.remove(x)]: drops the first occurrence of [x]. *)
Fixpoint remove (x : qid) (l : list qid) : list qid :=
  match l with
  | [] => []
  | y :: l' => if decide (x = y) then l' else y :: remove x l'
  end.

(** [if queue in self._subscribers: self._subscribers.remove(queue)] *)
Definition unsubscribe (queue : qid) (w : World) : World :=
  if decide (queue ∈ _subscribers w)
  then mkWorld (db w) (remove queue (_subscribers w)) (queues w)
  else w.

(** [queue.put(message)] on an unbounded queue. *)
Definition put (message : dict) (queue : qid) (qs : gmap qid (list dict))
  : gmap qid (list dict) :=
  alter (λ items : list dict, items ++ [message]) queue qs.

(** [if not self._subscribers: return]
    [for queue in self._subscribers: await queue.put(message)] *)
Definition broadcast (message : dict) (w : World) : World :=
  match _subscribers w with
  | [] => w
  | subs => mkWorld (db w) subs (foldl (λ qs queue, put message queue qs) (queues w) subs)
  end.

End Broadcaster.

(** ** main.py: the request/response handlers *)

(** [POST /api/notifications] *)
Definition create_notification (data : dict) (uuid now : string)
    (engine : Store.verdict) (w : World) : result dict * World :=
  match data !! "type", data !! "payload" with
  | Some ty, Some payload =>
      match Store.append ty payload uuid now engine (db w) with
      | (Some notification, db') =>
          let result := to_dict notification in
          (Return 201 result,
           Broadcaster.broadcast result (mkWorld db' (_subscribers w) (queues w)))
      | (None, db') =>
          (Raise "StoreError", mkWorld db' (_subscribers w) (queues w))
      end
  | _, _ => (HTTPException 400 "Missing type or payload", w)
  end.

Record PollBody := mkPollBody {
  items : list dict;
  next_after_seq : json
}.

(** [GET /api/notifications], after the framework has bound the query
    parameters. *)
Definition poll_notifications (after_seq limit : Z) (w : World)
  : result PollBody * World :=
  match Store.range after_seq limit (db w) with
  | None => (Raise "StoreError", w)
  | Some found =>
      let results := to_dict <$> found in
      match last results with
      | Some d =>
          match d !! "seq" with
          | Some s => (Return 200 (mkPollBody results s), w)
          | None => (Raise "KeyError", w)
          end
      | None => (Return 200 (mkPollBody results (JInt after_seq)), w)
      end
  end.

(** The binding of the query parameters: [after_seq: int = Query(0)],
    [limit: int = Query(50, le=200)]. *)
Definition get_notifications (after_seq limit : option Z) (w : World)
  : result PollBody * World :=
  let a := default 0 after_seq in
  let l := default 50 limit in
  if decide (l ≤ 200) then poll_notifications a l w
  else (HTTPException 422 "limit", w).

(** ** main.py: the streaming transports *)

(** Python's [x or 0] on an optional integer. *)
Definition or_zero (x : option Z) : Z :=
  match x with
  | Some z => if decide (z = 0) then 0 else z
  | None => 0
  end.

(** Timeouts passed to [asyncio.wait_for]. *)
Definition keepalive_timeout : Z := 15.
Definition handshake_timeout : Z := 5.

(** Close code used for protocol violations. *)
Definition policy_violation : Z := 1008.

(** [asyncio.wait_for(aw, timeout)]: [arrival] is the moment (counted from the
    start of the wait) at which [aw] completes and its value, if it ever
    does. *)
Inductive waited (A : Type) :=
| Got (a : A)
| TimeoutError.
Arguments Got {A} a.
Arguments TimeoutError {A}.

Definition wait_for {A} (arrival : option (Z * A)) (timeout : Z) : waited A :=
  match arrival with
  | Some (t, a) => if decide (t < timeout) then Got a else TimeoutError
  | None => TimeoutError
  end.

(** *** Push-stream (SSE) *)

Inductive sse_frame :=
| SseEvent (id : json) (event : string) (data : dict)
| SseComment (text : string).

(** The frame yielded for a backlog item. *)
Definition backlog_frame (item : Notification.t) : sse_frame :=
  SseEvent (JInt (Notification.seq item)) "notification" (to_dict item).

(** Where [event_generator] is suspended. *)
Inductive sse_state :=
| SseBacklog (cursor : Z) (item : Notification.t) (rest : list Notification.t)
| SseLive (cursor : Z) (queue : qid)
| SseDone.

(** The [for item in backlog] loop up to its next [yield]; when the loop is
    over, [queue = await broadcaster.subscribe()]. *)
Definition event_generator_loop (cursor : Z) (backlog : list Notification.t) (w : World)
  : sse_state * list sse_frame * World :=
  match backlog with
  | item :: rest => (SseBacklog cursor item rest, [backlog_frame item], w)
  | [] =>
      let '(queue, w') := Broadcaster.subscribe w in
      (SseLive cursor queue, [], w')
  end.

(** First run of the generator: [cursor = last_event_id or 0], the backlog
    query, then the loop. *)
Definition event_generator_start (last_event_id : option Z) (w : World)
  : sse_state * list sse_frame * World :=
  let cursor := or_zero last_event_id in
  match Store.range cursor 200 (db w) with
  | Some backlog => event_generator_loop cursor backlog w
  | None => (SseDone, [], w)
  end.

(** Resumption after the [yield] of a backlog item: [cursor = item.seq]. *)
Definition event_generator_resume (item : Notification.t) (rest : list Notification.t)
    (w : World) : sse_state * list sse_frame * World :=
  event_generator_loop (Notification.seq item) rest w.

(** One iteration of the [while True] loop.  [idle] is the time for which
    the queue stayed empty after [queue.get()] was entered.  [None]: the
    wait is not over yet. *)
Definition event_generator_live (cursor : Z) (queue : qid)
    (disconnected : bool) (idle : Z) (w : World)
  : option (sse_state * list sse_frame * World) :=
  if disconnected then Some (SseDone, [], Broadcaster.unsubscribe queue w)
  else
    match default [] (queues w !! queue) with
    | msg :: rest =>
        match wait_for (Some (idle, msg)) keepalive_timeout with
        | Got msg =>
            let w' := mkWorld (db w) (_subscribers w) (<[queue := rest]> (queues w)) in
            match msg !! "seq" with
            | Some s => Some (SseLive cursor queue, [SseEvent s "notification" msg], w')
            | None => Some (SseDone, [], Broadcaster.unsubscribe queue w')
            end
        | TimeoutError => Some (SseLive cursor queue, [SseComment "ping"], w)
        end
    | [] =>
        if decide (idle < keepalive_timeout) then None
        else Some (SseLive cursor queue, [SseComment "ping"], w)
    end.

(** The generator is closed while suspended (the client went away): the
    [finally] clause runs if the [try] had been entered. *)
Definition event_generator_close (st : sse_state) (w : World) : World :=
  match st with
  | SseLive _ queue => Broadcaster.unsubscribe queue w
  | _ => w
  end.

(** *** Bidirectional stream (WebSocket) *)

(** What [websocket.receive_json()] can produce. *)
Inductive inbound :=
| Decoded (v : json)
| Undecodable            (* json.JSONDecodeError *)
| NoText                 (* KeyError: the frame carries no text *)
| Disconnect.            (* WebSocketDisconnect *)

(** [{"type": "notification", "data": data}] *)
Definition notification_message (data : dict) : dict :=
  <["type" := JStr "notification"]> (<["data" := JObj data]> ∅).

Inductive ws_state :=
| WsHandshake (queue : qid)
| WsStreaming (queue : qid) (backlog : list Notification.t)
| WsClosed (code : Z)       (* closed with [code], then returned *)
| WsReturned                (* returned after the client went away *)
| WsRaised (exn : string).

(** [await websocket.accept(); queue = await broadcaster.subscribe()] *)
Definition websocket_endpoint_accept (w : World) : ws_state * World :=
  let '(queue, w') := Broadcaster.subscribe w in
  (WsHandshake queue, w').

(** From [wait_for(websocket.receive_json(), timeout=5.0)] to the backlog
    query.  Every way out other than the streaming phase passes through
    [finally: broadcaster.unsubscribe(queue)].  [None]: the value of
    [last_seq] is not an integer and its comparison is left to the SQL
    engine. *)
Definition websocket_endpoint_hello (queue : qid) (arrival : option (Z * inbound))
    (w : World) : option (ws_state * World) :=
  let closed := Some (WsClosed policy_violation, Broadcaster.unsubscribe queue w) in
  match wait_for arrival handshake_timeout with
  | TimeoutError => closed
  | Got Undecodable => closed
  | Got NoText => closed
  | Got Disconnect => Some (WsRaised "WebSocketDisconnect", Broadcaster.unsubscribe queue w)
  | Got (Decoded (JObj hello_msg)) =>
      match hello_msg !! "type" with
      | Some (JStr ty) =>
          if decide (ty = "hello") then
            match default (JInt 0) (hello_msg !! "last_seq") with
            | JInt last_seq =>
                match Store.range last_seq 200 (db w) with
                | Some backlog => Some (WsStreaming queue backlog, w)
                | None => Some (WsRaised "StoreError", Broadcaster.unsubscribe queue w)
                end
            | _ => None
            end
          else closed
      | _ => closed
      end
  | Got (Decoded _) => Some (WsRaised "AttributeError", Broadcaster.unsubscribe queue w)
  end.

(** One [await websocket.send_json(..)]: the next backlog item while the
    [for] loop runs, afterwards one round of [push_updates]
    ([msg = await queue.get()]).  [None]: the queue is empty. *)
Definition websocket_endpoint_send (queue : qid) (backlog : list Notification.t)
    (w : World) : option (ws_state * list dict * World) :=
  match backlog with
  | item :: rest =>
      Some (WsStreaming queue rest, [notification_message (to_dict item)], w)
  | [] =>
      match default [] (queues w !! queue) with
      | msg :: rest =>
          Some (WsStreaming queue [], [notification_message msg],
                mkWorld (db w) (_subscribers w) (<[queue := rest]> (queues w)))
      | [] => None
      end
  end.

(** [WebSocketDisconnect] in the streaming phase is caught:
    [push_task.cancel()], then [finally], and the handler returns. *)
Definition websocket_endpoint_disconnect (st : ws_state) (w : World)
  : option (ws_state * World) :=
  match st with
  | WsStreaming queue _ =>
      Some (WsReturned, Broadcaster.unsubscribe queue w)
  | _ => None
  end.

(** ** The process: one world, many connections *)

Inductive conn :=
| Sse (st : sse_state) (out : list sse_frame)
| Ws (st : ws_state) (out : list dict).

Record System := mkSystem {
  world : World;
  conns : gmap nat conn
}.

(** What the event loop can run next. *)
Inductive action :=
| Create (data : dict) (uuid now : string) (engine : Store.verdict)
| Poll (after_seq limit : option Z)
| SseConnect (c : nat) (last_event_id : option Z)
| SseResume (c : nat)
| SseWake (c : nat) (disconnected : bool) (idle : Z)
| SseClose (c : nat)
| WsAccept (c : nat)
| WsFirst (c : nat) (arrival : option (Z * inbound))
| WsSend (c : nat)
| WsDisconnect (c : nat).

Definition step (a : action) (s : System) : option System :=
  let w := world s in
  match a with
  | Create data uuid now engine =>
      Some (mkSystem (create_notification data uuid now engine w).2 (conns s))
  | Poll after_seq limit =>
      Some (mkSystem (get_notifications after_seq limit w).2 (conns s))
  | SseConnect c last_event_id =>
      match conns s !! c with
      | None =>
          let '(st, frames, w') := event_generator_start last_event_id w in
          Some (mkSystem w' (<[c := Sse st frames]> (conns s)))
      | Some _ => None
      end
  | SseResume c =>
      match conns s !! c with
      | Some (Sse (SseBacklog _ item rest) out) =>
          let '(st, frames, w') := event_generator_resume item rest w in
          Some (mkSystem w' (<[c := Sse st (out ++ frames)]> (conns s)))
      | _ => None
      end
  | SseWake c disconnected idle =>
      match conns s !! c with
      | Some (Sse (SseLive cursor queue) out) =>
          '(st, frames, w') ← event_generator_live cursor queue disconnected idle w;
          Some (mkSystem w' (<[c := Sse st (out ++ frames)]> (conns s)))
      | _ => None
      end
  | SseClose c =>
      match conns s !! c with
      | Some (Sse SseDone _) => None
      | Some (Sse st out) =>
          Some (mkSystem (event_generator_close st w) (<[c := Sse SseDone out]> (conns s)))
      | _ => None
      end
  | WsAccept c =>
      match conns s !! c with
      | None =>
          let '(st, w') := websocket_endpoint_accept w in
          Some (mkSystem w' (<[c := Ws st []]> (conns s)))
      | Some _ => None
      end
  | WsFirst c arrival =>
      match conns s !! c with
      | Some (Ws (WsHandshake queue) out) =>
          '(st, w') ← websocket_endpoint_hello queue arrival w;
          Some (mkSystem w' (<[c := Ws st out]> (conns s)))
      | _ => None
      end
  | WsSend c =>
      match conns s !! c with
      | Some (Ws (WsStreaming queue backlog) out) =>
          '(st, frames, w') ← websocket_endpoint_send queue backlog w;
          Some (mkSystem w' (<[c := Ws st (out ++ frames)]> (conns s)))
      | _ => None
      end
  | WsDisconnect c =>
      match conns s !! c with
      | Some (Ws st out) =>
          '(st', w') ← websocket_endpoint_disconnect st w;
          Some (mkSystem w' (<[c := Ws st' out]> (conns s)))
      | _ => None
      end
  end.

(** A schedule, run from left to right. *)
Fixpoint run (acts : list action) (s : System) : option System :=
  match acts with
  | [] => Some s
  | a :: acts' => s' ← step a s; run acts' s'
  end.

(** The process right after start-up: empty table, sequence at 1, nobody
    subscribed. *)
Definition boot : System :=
  mkSystem (mkWorld (Store.mk [] 1) [] ∅) ∅.

(** ** Vocabulary of the statements *)

(** The queue a connection holds a reference to, while it is subscribed. *)
Definition conn_queue (k : conn) : option qid :=
  match k with
  | Sse (SseLive _ queue) _ => Some queue
  | Ws (WsHandshake queue) _ => Some queue
  | Ws (WsStreaming queue _) _ => Some queue
  | _ => None
  end.

(** Nothing is written to a WebSocket before its first message. *)
Definition conn_ok (k : conn) : Prop :=
  match k with
  | Ws (WsHandshake _) out => out = []
  | _ => True
  end.

(** The table is in strictly increasing [seq] order, below the sequence. *)
Definition seq_lt (a b : Notification.t) : Prop :=
  Notification.seq a < Notification.seq b.

Definition store_ok (d : Store.t) : Prop :=
  StronglySorted seq_lt (Store.rows d)
  ∧ Forall (λ n, Notification.seq n < Store.sequence d) (Store.rows d).

Record valid (s : System) : Prop := mkValid {
  valid_nodup : NoDup (_subscribers (world s));
  valid_alloc : ∀ q, q ∈ _subscribers (world s) → is_Some (queues (world s) !! q);
  valid_held : ∀ c k q,
    conns s !! c = Some k → conn_queue k = Some q → q ∈ _subscribers (world s);
  valid_owner : ∀ c1 c2 k1 k2 q,
    conns s !! c1 = Some k1 → conns s !! c2 = Some k2 →
    conn_queue k1 = Some q → conn_queue k2 = Some q → c1 = c2;
  valid_conn : ∀ c k, conns s !! c = Some k → conn_ok k;
  valid_store : store_ok (db (world s))
}.

(** The connection an action belongs to. *)
Definition actor (a : action) : option nat :=
  match a with
  | Create _ _ _ _ | Poll _ _ => None
  | SseConnect c _ | SseResume c | SseWake c _ _ | SseClose c
  | WsAccept c | WsFirst c _ | WsSend c | WsDisconnect c => Some c
  end.

(** Content of a queue. *)
Definition mailbox (s : System) (q : qid) : list dict :=
  default [] (queues (world s) !! q).

(** Rows appended between two states. *)
Definition created_since (s s' : System) : list Notification.t :=
  drop (length (Store.rows (db (world s)))) (Store.rows (db (world s'))).

(** A change of the world that leaves the table and the queue [q] alone. *)
Definition untouched (q : qid) (w w' : World) : Prop :=
  db w' = db w ∧ queues w' !! q = queues w !! q.

(** Phases of a WebSocket connection. *)
Definition ws_phase (st : ws_state) : nat :=
  match st with
  | WsHandshake _ => 0
  | WsStreaming _ _ => 1
  | WsClosed _ | WsReturned | WsRaised _ => 2
  end.

(** What has been written to the socket, followed by what is waiting to be
    written: the backlog items not yet sent, then the queue. *)
Definition ws_stream (out : list dict) (backlog : list Notification.t)
    (queued : list dict) : list dict :=
  out ++ (notification_message <$> ((to_dict <$> backlog) ++ queued)).

(** A first message that the handshake rejects: nothing within the
    timeout, text that is not JSON, a frame without text, or a JSON object
    whose [type] is not ["hello"]. *)
Definition rejected (arrival : option (Z * inbound)) : Prop :=
  match arrival with
  | None => True
  | Some (t, m) =>
      handshake_timeout ≤ t
      ∨ m = Undecodable
      ∨ m = NoText
      ∨ ∃ hello_msg, m = Decoded (JObj hello_msg)
                     ∧ hello_msg !! "type" ≠ Some (JStr "hello")
  end.

(** A connection whose handler has returned or raised. *)
Definition ended (k : conn) : Prop :=
  match k with
  | Sse SseDone _ => True
  | Ws (WsClosed _) _ => True
  | Ws WsReturned _ => True
  | Ws (WsRaised _) _ => True
  | _ => False
  end.

(** Every subscribed queue is held by some connection. *)
Definition no_leak (s : System) : Prop :=
  ∀ q, q ∈ _subscribers (world s) →
       ∃ c k, conns s !! c = Some k ∧ conn_queue k = Some q.

(** The notification frames among what a push-stream client was sent. *)
Definition event_of (f : sse_frame) : option sse_frame :=
  match f with
  | SseEvent _ _ _ => Some f
  | SseComment _ => None
  end.

Definition sse_events (out : list sse_frame) : list sse_frame := omap event_of out.

(** What a push-stream connection has been sent and still holds, against
    the table: the notification frames are the frames of [sent], the backlog
    items not yet yielded and the queued messages follow in table order. *)
Definition sse_ok (s : System) (k : conn) : Prop :=
  match k with
  | Sse st out =>
      ∃ sent : list Notification.t,
        sse_events out = backlog_frame <$> sent
        ∧ Forall (λ f, f = SseComment "ping" ∨ ∃ n, f = backlog_frame n) out
        ∧ match st with
          | SseBacklog _ item rest =>
              (∃ sent0, sent = sent0 ++ [item])
              ∧ (sent ++ rest) `sublist_of` Store.rows (db (world s))
          | SseLive _ queue =>
              ∃ queued, mailbox s queue = to_dict <$> queued
                        ∧ (sent ++ queued) `sublist_of` Store.rows (db (world s))
          | SseDone => sent `sublist_of` Store.rows (db (world s))
          end
  | Ws _ _ => True
  end.

(** Phases of a push-stream connection. *)
Definition sse_phase (st : sse_state) : nat :=
  match st with
  | SseBacklog _ _ _ => 0
  | SseLive _ _ => 1
  | SseDone => 2
  end.

(** What a WebSocket connection has been sent and still holds, against the
    table: every message written, every backlog item not yet written and
    every queued message is a stored notification. *)
Definition ws_ok (s : System) (k : conn) : Prop :=
  match k with
  | Ws st out =>
      ∃ sent : list Notification.t,
        out = (notification_message ∘ to_dict <$> sent)
        ∧ Forall (λ n, n ∈ Store.rows (db (world s))) sent
        ∧ match st with
          | WsHandshake queue =>
              ∃ queued, mailbox s queue = to_dict <$> queued
                        ∧ Forall (λ n, n ∈ Store.rows (db (world s))) queued
          | WsStreaming queue backlog =>
              Forall (λ n, n ∈ Store.rows (db (world s))) backlog
              ∧ ∃ queued, mailbox s queue = to_dict <$> queued
                          ∧ Forall (λ n, n ∈ Store.rows (db (world s))) queued
          | _ => True
          end
  | Sse _ _ => True
  end.

(** ** Concrete schedules *)

(** A request body [{"type": ty, "payload": {}}]. *)
Definition body (ty : string) : dict :=
  <["type" := JStr ty]> (<["payload" := JObj ∅]> ∅).

(** [{"type": "hello", "last_seq": last_seq}] and [{"type": "hello"}]. *)
Definition hello (last_seq : Z) : dict :=
  <["type" := JStr "hello"]> (<["last_seq" := JInt last_seq]> ∅).

Definition hello_plain : dict := <["type" := JStr "hello"]> ∅.

(** Distinct identifiers for a series of writes. *)
Fixpoint tally (n : nat) : string :=
  match n with
  | O => "u"
  | S n' => String.append "i" (tally n')
  end.

(** The state reached from start-up by a schedule. *)
Definition after (acts : list action) : System := default boot (run acts boot).

Definition n1 : Notification.t := Notification.mk "u1" 1 "A" (JObj ∅) (Some "t1").
Definition n2 : Notification.t := Notification.mk "u2" 2 "B" (JObj ∅) (Some "t2").
Definition n3 : Notification.t := Notification.mk "u3" 3 "C" (JObj ∅) (Some "t3").

Definition write_A : action := Create (body "A") "u1" "t1" (Store.Stored "A").
Definition write_B : action := Create (body "B") "u2" "t2" (Store.Stored "B").
Definition write_C : action := Create (body "C") "u3" "t3" (Store.Stored "C").

(** A write lands between the accept and the hello of a WebSocket client. *)
Definition ws_race : list action :=
  [WsAccept 0; write_A; WsFirst 0 (Some (1, Decoded (JObj (hello 0)))); WsSend 0].

(** A write lands while a push-stream client is being sent its backlog. *)
Definition sse_race : list action :=
  [write_A; SseConnect 0 None; write_B; SseResume 0; write_C; SseWake 0 false 0].

(** 201 writes, then a WebSocket client that says hello without a cursor
    and is sent 200 messages. *)
Definition long_backlog : list action :=
  ((λ i, Create (body "A") (tally i) "t" (Store.Stored "A")) <$> seq 0 201)
  ++ [WsAccept 0; WsFirst 0 (Some (1, Decoded (JObj hello_plain)))]
  ++ repeat (WsSend 0) 200.

(** * Properties *)

(** ** Dictionaries produced by [to_dict] *)

Lemma to_dict_seq n : to_dict n !! "seq" = Some (JInt (Notification.seq n)).
Proof. reflexivity. Qed.

Lemma to_dict_keys n :
  dom (to_dict n) = ({["id"; "seq"; "type"; "payload"; "created_at"]} : gset string).
Proof.
  unfold to_dict, Notification.to_dict.
  rewrite !dom_insert_L, dom_empty_L. set_solver.
Qed.

(** ** Polling *)

Lemma range_take after_seq limit w :
  0 ≤ limit →
  Store.range after_seq limit (db w)
  = Some (take (Z.to_nat limit)
            (merge_sort Store.seq_le
               (filter (λ n, after_seq < Notification.seq n) (Store.rows (db w))))).
Proof.
  intros Hl. unfold Store.range. destruct (decide (limit < 0)); [lia | done].
Qed.

Lemma poll_notifications_world after_seq limit w :
  (poll_notifications after_seq limit w).2 = w.
Proof.
  unfold poll_notifications.
  destruct (Store.range after_seq limit (db w)) as [found|]; [|done].
  destruct (last (to_dict <$> found)) as [d|]; [|done].
  by destruct (d !! "seq").
Qed.

Lemma get_notifications_world after_seq limit w :
  (get_notifications after_seq limit w).2 = w.
Proof.
  unfold get_notifications. case_decide; [apply poll_notifications_world | done].
Qed.


(** ** Creating a notification *)

Lemma create_notification_missing data uuid now engine w :
  data !! "type" = None ∨ data !! "payload" = None →
  create_notification data uuid now engine w
  = (HTTPException 400 "Missing type or payload", w).
Proof.
  unfold create_notification. intros [-> | Hp]; [done|].
  rewrite Hp. by destruct (data !! "type").
Qed.

Lemma create_notification_400 data uuid now engine w :
  status_of (create_notification data uuid now engine w).1 = 400 →
  data !! "type" = None ∨ data !! "payload" = None.
Proof.
  unfold create_notification.
  destruct (data !! "type") as [ty|]; [|by left].
  destruct (data !! "payload") as [p|]; [|by right].
  destruct (Store.append ty p uuid now engine (db w)) as [[n|] db']; simpl; lia.
Qed.

(** C6.  [create_notification] answers 400 exactly when [type] or
    [payload] is missing from the body, and then creates nothing.  When it
    returns normally the status is 201 and the body is the record of the
    row just appended: its keys are id, seq, type, payload and created_at,
    holding the identifier drawn, the next value of the sequence, the type
    as stored, the payload of the request and the time of the write.  With
    both fields present the handler returns normally when the store accepts
    the write, and fails without adding a row when the store aborts it. *)
Theorem create_notification_contract (data : dict) (uuid now : string)
    (engine : Store.verdict) (w : World) :
  let (r, w') := create_notification data uuid now engine w in
  (status_of r = 400 ↔ data !! "type" = None ∨ data !! "payload" = None)
  ∧ (status_of r = 400 → Store.rows (db w') = Store.rows (db w))
  ∧ (∀ status created, r = Return status created →
       status = 201
       ∧ dom created = ({["id"; "seq"; "type"; "payload"; "created_at"]} : gset string)
       ∧ ∃ s payload,
           engine = Store.Stored s
           ∧ data !! "payload" = Some payload
           ∧ created !! "id" = Some (JStr uuid)
           ∧ created !! "seq" = Some (JInt (Store.sequence (db w)))
           ∧ created !! "type" = Some (JStr s)
           ∧ created !! "payload" = Some payload
           ∧ created !! "created_at" = Some (JStr now)
           ∧ created
             = to_dict (Notification.mk uuid (Store.sequence (db w)) s payload (Some now))
           ∧ Store.rows (db w')
             = Store.rows (db w)
               ++ [Notification.mk uuid (Store.sequence (db w)) s payload (Some now)])
  ∧ (∀ ty payload s, data !! "type" = Some ty → data !! "payload" = Some payload →
       engine = Store.Stored s →
       ∃ created, r = Return 201 created)
  ∧ (∀ ty payload drawn, data !! "type" = Some ty → data !! "payload" = Some payload →
       engine = Store.Aborted drawn →
       r = Raise "StoreError" ∧ Store.rows (db w') = Store.rows (db w)).
Proof.
  pose proof (create_notification_missing data uuid now engine w) as Hmiss.
  pose proof (create_notification_400 data uuid now engine w) as H400.
  destruct (create_notification data uuid now engine w) as [r w'] eqn:E.
  simpl in H400. split_and!.
  - split; [done|]. intros H. specialize (Hmiss H). by simplify_eq.
  - intros H. specialize (Hmiss (H400 H)). by simplify_eq.
  - intros status created ->. revert E. unfold create_notification.
    destruct (data !! "type") as [ty|]; [|done].
    destruct (data !! "payload") as [p|]; [|done].
    destruct engine as [s|drawn]; simpl; [|done].
    intros [= <- <- <-]. split; [done|]. split; [apply to_dict_keys|].
    exists s, p. split_and!; try done.
    unfold Broadcaster.broadcast. by destruct (_subscribers w).
  - intros ty p s Hty Hp ->. revert E. unfold create_notification.
    rewrite Hty, Hp. simpl. intros [= <- _]. eauto.
  - intros ty p drawn Hty Hp ->. revert E. unfold create_notification.
    rewrite Hty, Hp. simpl. by intros [= <- <-].
Qed.

(** C9.  A rejection with 400 leaves the world as it was: no row is added,
    no sequence value is drawn, nothing is put on any queue and the
    subscriber list is the same. *)
Theorem create_notification_rejects_before_effects
    (data : dict) (uuid now : string) (engine : Store.verdict) (w : World) :
  status_of (create_notification data uuid now engine w).1 = 400 →
  (create_notification data uuid now engine w).2 = w
  ∧ Store.rows (db (create_notification data uuid now engine w).2) = Store.rows (db w)
  ∧ Store.sequence (db (create_notification data uuid now engine w).2) = Store.sequence (db w)
  ∧ queues (create_notification data uuid now engine w).2 = queues w
  ∧ _subscribers (create_notification data uuid now engine w).2 = _subscribers w.
Proof.
  intros H%create_notification_400.
  by rewrite create_notification_missing.
Qed.

(** ** Invariants of the process *)

Lemma valid_boot : valid boot.
Proof.
  split; simpl; try done.
  - apply NoDup_nil_2.
  - intros q H. by apply elem_of_nil in H.
  - split; constructor.
Qed.

(** *** The broadcaster's operations *)

Lemma remove_not_elem q l : q ∉ l → Broadcaster.remove q l = l.
Proof.
  induction l as [|y l IH]; simpl; [done|].
  intros H. apply not_elem_of_cons in H as [Hne Hl].
  case_decide as Hd; [done|]. by rewrite IH.
Qed.

Lemma remove_app_fresh q l : q ∉ l → Broadcaster.remove q (l ++ [q]) = l.
Proof.
  induction l as [|y l IH]; simpl.
  - intros _. by case_decide as Hd.
  - intros H. apply not_elem_of_cons in H as [Hne Hl].
    case_decide as Hd; [done|]. by rewrite IH.
Qed.

Lemma elem_of_remove q q' l :
  q' ∈ Broadcaster.remove q l → q' ∈ l.
Proof.
  induction l as [|y l IH]; simpl; [done|].
  case_decide as Hd; subst.
  - intros H. by apply elem_of_cons; right.
  - intros [->|H]%elem_of_cons; [apply elem_of_cons; by left|].
    apply elem_of_cons; right; auto.
Qed.

Lemma elem_of_remove_ne q q' l :
  q' ≠ q → q' ∈ l → q' ∈ Broadcaster.remove q l.
Proof.
  intros Hne. induction l as [|y l IH]; simpl; [done|].
  intros [->|H]%elem_of_cons.
  - case_decide as Hd; [congruence|]. apply elem_of_cons; by left.
  - case_decide as Hd; [done|]. apply elem_of_cons; right; auto.
Qed.

Lemma NoDup_remove q l : NoDup l → NoDup (Broadcaster.remove q l).
Proof.
  induction 1 as [|y l Hy Hl IH]; simpl; [constructor|].
  case_decide as Hd; [done|]. constructor; [|done].
  intros H'. by apply Hy, (elem_of_remove q).
Qed.

Lemma not_elem_of_remove q l : NoDup l → q ∉ Broadcaster.remove q l.
Proof.
  induction 1 as [|y l Hy Hl IH]; simpl; [by intros ?%elem_of_nil|].
  case_decide as Hd; subst; [done|].
  intros [->|H']%elem_of_cons; [done|]. by apply IH.
Qed.

Lemma subscribe_fresh w : queues w !! (Broadcaster.subscribe w).1 = None.
Proof. simpl. apply not_elem_of_dom, is_fresh. Qed.

(** What [broadcast]'s loop does to one queue. *)
Lemma foldl_put_lookup message (subs : list qid) (qs : gmap qid (list dict)) q :
  NoDup subs →
  foldl (λ qs queue, Broadcaster.put message queue qs) qs subs !! q
  = if decide (q ∈ subs)
    then (λ items : list dict, items ++ [message]) <$> qs !! q
    else qs !! q.
Proof.
  intros Hnd. revert qs. induction Hnd as [|y l Hy Hl IH]; intros qs.
  - by rewrite decide_False by (by intros ?%elem_of_nil).
  - cbn [foldl]. rewrite IH. unfold Broadcaster.put.
    destruct (decide (q = y)) as [->|Hne].
    + rewrite lookup_alter_eq.
      rewrite decide_False by done.
      rewrite decide_True by (apply elem_of_cons; by left). done.
    + rewrite lookup_alter_ne by done.
      destruct (decide (q ∈ l)) as [Hin|Hin].
      * rewrite decide_True by (apply elem_of_cons; by right). done.
      * rewrite decide_False; [done|].
        intros [?|?]%elem_of_cons; done.
Qed.

Lemma broadcast_lookup message w q :
  NoDup (_subscribers w) →
  queues (Broadcaster.broadcast message w) !! q
  = if decide (q ∈ _subscribers w)
    then (λ items : list dict, items ++ [message]) <$> queues w !! q
    else queues w !! q.
Proof.
  intros Hnd. unfold Broadcaster.broadcast.
  destruct (_subscribers w) as [|y l] eqn:E.
  - by rewrite decide_False by (by intros ?%elem_of_nil).
  - cbn [queues]. rewrite <- E in *. by apply foldl_put_lookup.
Qed.

Lemma broadcast_subscribers message w :
  _subscribers (Broadcaster.broadcast message w) = _subscribers w.
Proof. unfold Broadcaster.broadcast. by destruct (_subscribers w) eqn:E. Qed.

Lemma broadcast_db message w : db (Broadcaster.broadcast message w) = db w.
Proof. unfold Broadcaster.broadcast. by destruct (_subscribers w). Qed.

(** *** Ways in which a step changes the process *)

Lemma store_ok_append ty payload uuid now engine d :
  store_ok d → store_ok (Store.append ty payload uuid now engine d).2.
Proof.
  intros [Hs Hb]. unfold Store.append.
  assert (Hweak : Forall (λ n, Notification.seq n < Store.sequence d + 1) (Store.rows d)).
  { eapply Forall_impl; [exact Hb|]. simpl. intros; lia. }
  destruct engine as [s|[|]]; simpl; [|by split|by split].
  split; simpl.
  - induction Hs as [|x l Hl IH Hx]; simpl.
    + repeat constructor.
    + apply Forall_cons in Hb as [Hxb Hlb].
      apply Forall_cons in Hweak as [_ Hlw].
      constructor; [by apply IH|].
      apply Forall_app. split; [done|]. by constructor.
  - apply Forall_app. split; [done|]. constructor; [simpl; lia|constructor].
Qed.

(** The world changes, the connections do not. *)
Lemma valid_world s w' :
  valid s →
  _subscribers w' = _subscribers (world s) →
  (∀ q, is_Some (queues (world s) !! q) → is_Some (queues w' !! q)) →
  store_ok (db w') →
  valid (mkSystem w' (conns s)).
Proof.
  intros [] Hsubs Hq Hst. split; simpl; rewrite ?Hsubs; eauto.
Qed.

(** A connection moves on and keeps the queue it held (or none). *)
Lemma valid_conn_same s c k' :
  valid s →
  (conns s !! c) ≫= conn_queue = conn_queue k' →
  conn_ok k' →
  valid (mkSystem (world s) (<[c := k']> (conns s))).
Proof.
  intros [] Hq Hok.
  assert (Hold : ∀ c0 k q, <[c := k']> (conns s) !! c0 = Some k →
            conn_queue k = Some q →
            ∃ k0, conns s !! c0 = Some k0 ∧ conn_queue k0 = Some q).
  { intros c0 k q. destruct (decide (c = c0)) as [->|Hne].
    - rewrite lookup_insert_eq. intros [= <-] Hk. rewrite Hk in Hq.
      destruct (conns s !! c0) as [k0|]; [|done]. eauto.
    - rewrite lookup_insert_ne by done. eauto. }
  split; simpl; try done.
  - intros c0 k q H1 H2. destruct (Hold _ _ _ H1 H2) as (k0 & ? & ?). eauto.
  - intros c1 c2 k1 k2 q H1 H2 Hq1 Hq2.
    destruct (Hold _ _ _ H1 Hq1) as (? & ? & ?).
    destruct (Hold _ _ _ H2 Hq2) as (? & ? & ?). eauto.
  - intros c0 k. destruct (decide (c = c0)) as [->|Hne].
    + rewrite lookup_insert_eq. by intros [= <-].
    + rewrite lookup_insert_ne by done. eauto.
Qed.

(** A connection that held no queue subscribes. *)
Lemma valid_subscribe s c k' :
  valid s →
  (conns s !! c) ≫= conn_queue = None →
  conn_queue k' = Some (Broadcaster.subscribe (world s)).1 →
  conn_ok k' →
  valid (mkSystem (Broadcaster.subscribe (world s)).2 (<[c := k']> (conns s))).
Proof.
  intros [] Hnone Hq Hok.
  pose proof (subscribe_fresh (world s)) as Hfresh.
  set (q' := (Broadcaster.subscribe (world s)).1) in *.
  assert (Hq' : q' ∉ _subscribers (world s)).
  { intros Hin. apply valid_alloc0 in Hin. rewrite Hfresh in Hin. by destruct Hin. }
  assert (Hold : ∀ c0 k q, <[c := k']> (conns s) !! c0 = Some k →
            conn_queue k = Some q →
            (c0 = c ∧ q = q') ∨
            (c0 ≠ c ∧ q ≠ q' ∧ ∃ k0, conns s !! c0 = Some k0 ∧ conn_queue k0 = Some q)).
  { intros c0 k q. destruct (decide (c = c0)) as [->|Hne].
    - rewrite lookup_insert_eq. intros [= <-] Hk. left. split; [done|]. congruence.
    - rewrite lookup_insert_ne by done. intros H1 H2. right.
      split; [done|]. split; [|eauto].
      intros ->. apply Hq'. eauto. }
  split; simpl.
  - apply NoDup_app. split; [done|]. split; [|apply NoDup_singleton].
    intros x Hx ->%list_elem_of_singleton. done.
  - intros q [Hin| ->%list_elem_of_singleton]%elem_of_app.
    + destruct (decide (q = q')) as [->|Hne]; [done|].
      rewrite lookup_insert_ne by done. auto.
    + fold q'. rewrite lookup_insert_eq. eauto.
  - intros c0 k q H1 H2. apply elem_of_app.
    destruct (Hold _ _ _ H1 H2) as [[_ ->]|(_ & _ & k0 & ? & ?)].
    + right. by apply list_elem_of_singleton.
    + left. eauto.
  - intros c1 c2 k1 k2 q H1 H2 Hq1 Hq2.
    destruct (Hold _ _ _ H1 Hq1) as [[-> ->]|(? & ? & ? & ? & ?)];
      destruct (Hold _ _ _ H2 Hq2) as [[-> ?]|(? & ? & ? & ? & ?)];
      try done. eauto.
  - intros c0 k. destruct (decide (c = c0)) as [->|Hne].
    + rewrite lookup_insert_eq. by intros [= <-].
    + rewrite lookup_insert_ne by done. eauto.
  - done.
Qed.

(** A connection gives up its queue. *)
Lemma valid_unsubscribe s c q k' :
  valid s →
  (conns s !! c) ≫= conn_queue = Some q →
  conn_queue k' = None →
  conn_ok k' →
  valid (mkSystem (Broadcaster.unsubscribe q (world s)) (<[c := k']> (conns s))).
Proof.
  intros [] Hq Hnone Hok.
  destruct (conns s !! c) as [k0|] eqn:Hc; [simpl in Hq|done].
  assert (Hin : q ∈ _subscribers (world s)) by eauto.
  unfold Broadcaster.unsubscribe. rewrite decide_True by done.
  assert (Hold : ∀ c0 k q0, <[c := k']> (conns s) !! c0 = Some k →
            conn_queue k = Some q0 →
            c0 ≠ c ∧ q0 ≠ q ∧ conns s !! c0 = Some k).
  { intros c0 k q0. destruct (decide (c = c0)) as [->|Hne].
    - rewrite lookup_insert_eq. intros [= <-] Hk. congruence.
    - rewrite lookup_insert_ne by done. intros H1 H2.
      split; [done|]. split; [|done]. intros ->. apply Hne. eauto. }
  split; simpl.
  - by apply NoDup_remove.
  - intros q0 H0%elem_of_remove. auto.
  - intros c0 k q0 H1 H2. destruct (Hold _ _ _ H1 H2) as (? & ? & ?).
    apply elem_of_remove_ne; eauto.
  - intros c1 c2 k1 k2 q0 H1 H2 Hq1 Hq2.
    destruct (Hold _ _ _ H1 Hq1) as (? & ? & ?).
    destruct (Hold _ _ _ H2 Hq2) as (? & ? & ?). eauto.
  - intros c0 k. destruct (decide (c = c0)) as [->|Hne].
    + rewrite lookup_insert_eq. by intros [= <-].
    + rewrite lookup_insert_ne by done. eauto.
  - done.
Qed.

(** *** What [create_notification] does to the world *)

Lemma create_notification_effect data uuid now engine w :
  NoDup (_subscribers w) →
  ∃ new : list Notification.t,
    Store.rows (db (create_notification data uuid now engine w).2) = Store.rows (db w) ++ new
    ∧ _subscribers (create_notification data uuid now engine w).2 = _subscribers w
    ∧ (∀ q, queues (create_notification data uuid now engine w).2 !! q
            = if decide (q ∈ _subscribers w)
              then (λ items : list dict, items ++ (to_dict <$> new)) <$> queues w !! q
              else queues w !! q)
    ∧ (store_ok (db w) → store_ok (db (create_notification data uuid now engine w).2)).
Proof.
  intros Hnd.
  assert (Hnil : ∃ new : list Notification.t,
    Store.rows (db w) = Store.rows (db w) ++ new
    ∧ _subscribers w = _subscribers w
    ∧ (∀ q, queues w !! q
            = if decide (q ∈ _subscribers w)
              then (λ items : list dict, items ++ (to_dict <$> new)) <$> queues w !! q
              else queues w !! q)
    ∧ (store_ok (db w) → store_ok (db w))).
  { exists []. rewrite app_nil_r. split_and!; try done.
    intros q. case_decide; [|done]. destruct (queues w !! q); simpl; [|done].
    by rewrite app_nil_r. }
  unfold create_notification.
  destruct (data !! "type") as [ty|]; [|done].
  destruct (data !! "payload") as [p|]; [|done].
  pose proof (store_ok_append ty p uuid now engine (db w)) as Hst.
  destruct engine as [s0|drawn]; simpl in *;
    [|destruct Hnil as (new & ? & ? & ? & ?); exists new; by split_and!].
  eexists [_]. rewrite broadcast_db, broadcast_subscribers. simpl.
  split_and!; try done.
  intros q. by rewrite broadcast_lookup.
Qed.

Lemma create_notification_valid data uuid now engine s :
  valid s → valid (mkSystem (create_notification data uuid now engine (world s)).2 (conns s)).
Proof.
  intros Hv.
  destruct (create_notification_effect data uuid now engine (world s)) as (new & Hr & Hs & Hq & Hst).
  { apply Hv. }
  apply valid_world; try done.
  - intros q Hsome. rewrite Hq. case_decide; [|done]. by apply fmap_is_Some.
  - apply Hst, Hv.
Qed.

(** *** Every step keeps the invariant *)

Lemma range_200 cursor d : is_Some (Store.range cursor 200 d).
Proof. unfold Store.range. rewrite decide_False by lia. eauto. Qed.

Lemma event_generator_loop_valid s c cursor backlog out :
  valid s →
  (conns s !! c) ≫= conn_queue = None →
  valid (mkSystem (event_generator_loop cursor backlog (world s)).2
           (<[c := Sse (event_generator_loop cursor backlog (world s)).1.1
                      (out ++ (event_generator_loop cursor backlog (world s)).1.2)]>
              (conns s))).
Proof.
  intros Hv Hc. destruct backlog as [|item rest]; simpl.
  - by apply (valid_subscribe s c (Sse (SseLive cursor _) _)).
  - by apply valid_conn_same.
Qed.

Lemma pop_valid s q rest :
  valid s →
  valid (mkSystem (mkWorld (db (world s)) (_subscribers (world s))
                     (<[q := rest]> (queues (world s)))) (conns s)).
Proof.
  intros Hv. apply valid_world; simpl; [done..| |apply Hv].
  intros q0 H0. destruct (decide (q = q0)) as [->|Hne].
  - rewrite lookup_insert_eq. eauto.
  - by rewrite lookup_insert_ne.
Qed.

Lemma event_generator_live_valid s c cursor queue out disconnected idle st frames w' :
  valid s →
  conns s !! c = Some (Sse (SseLive cursor queue) out) →
  event_generator_live cursor queue disconnected idle (world s) = Some (st, frames, w') →
  valid (mkSystem w' (<[c := Sse st (out ++ frames)]> (conns s))).
Proof.
  intros Hv Hc. unfold event_generator_live.
  destruct disconnected.
  { intros [= <- <- <-]. apply valid_unsubscribe; try done. by rewrite Hc. }
  destruct (default [] (queues (world s) !! queue)) as [|msg rest].
  { case_decide; [done|]. intros [= <- <- <-].
    apply valid_conn_same; try done. by rewrite Hc. }
  unfold wait_for. case_decide.
  - destruct (msg !! "seq").
    + intros [= <- <- <-].
      apply (valid_conn_same (mkSystem _ (conns s))); simpl; try done.
      * by apply pop_valid.
      * by rewrite Hc.
    + intros [= <- <- <-].
      apply (valid_unsubscribe (mkSystem _ (conns s))); simpl; try done.
      * by apply pop_valid.
      * by rewrite Hc.
  - intros [= <- <- <-]. apply valid_conn_same; try done. by rewrite Hc.
Qed.

Lemma websocket_endpoint_hello_valid s c queue out arrival st w' :
  valid s →
  conns s !! c = Some (Ws (WsHandshake queue) out) →
  websocket_endpoint_hello queue arrival (world s) = Some (st, w') →
  valid (mkSystem w' (<[c := Ws st out]> (conns s))).
Proof.
  intros Hv Hc.
  assert (Hout : ∀ k', conn_queue k' = None → conn_ok k' →
            valid (mkSystem (Broadcaster.unsubscribe queue (world s))
                     (<[c := k']> (conns s)))).
  { intros k' ??. apply valid_unsubscribe; try done. by rewrite Hc. }
  unfold websocket_endpoint_hello, wait_for.
  destruct arrival as [[t m]|]; [|intros [= <- <-]; by apply Hout].
  case_decide; [|intros [= <- <-]; by apply Hout].
  destruct m as [v| | |]; try (intros [= <- <-]; by apply Hout).
  destruct v as [| | | | |hello_msg]; try (intros [= <- <-]; by apply Hout).
  destruct (hello_msg !! "type") as [ty|]; [|intros [= <- <-]; by apply Hout].
  destruct ty as [| | |ty| |]; try (intros [= <- <-]; by apply Hout).
  case_decide; [|intros [= <- <-]; by apply Hout].
  destruct (default (JInt 0) (hello_msg !! "last_seq")); try done.
  destruct (Store.range _ _ _); intros [= <- <-]; [|by apply Hout].
  apply valid_conn_same; try done. by rewrite Hc.
Qed.

Lemma websocket_endpoint_send_valid s c queue backlog out st frames w' :
  valid s →
  conns s !! c = Some (Ws (WsStreaming queue backlog) out) →
  websocket_endpoint_send queue backlog (world s) = Some (st, frames, w') →
  valid (mkSystem w' (<[c := Ws st (out ++ frames)]> (conns s))).
Proof.
  intros Hv Hc. unfold websocket_endpoint_send.
  destruct backlog as [|item rest].
  - destruct (default [] (queues (world s) !! queue)) as [|msg rest]; [done|].
    intros [= <- <- <-].
    apply (valid_conn_same (mkSystem _ (conns s))); simpl; try done.
    + by apply pop_valid.
    + by rewrite Hc.
  - intros [= <- <- <-]. apply valid_conn_same; try done. by rewrite Hc.
Qed.

Theorem step_valid a s s' : valid s → step a s = Some s' → valid s'.
Proof.
  intros Hv. destruct a as [data uuid now engine|after limit|c lei|c|c disc idle|c|c|c arr|c|c];
    simpl.
  - intros [= <-]. by apply create_notification_valid.
  - intros [= <-]. rewrite get_notifications_world. by destruct s.
  - destruct (conns s !! c) eqn:Hc; [done|].
    unfold event_generator_start.
    destruct (range_200 (or_zero lei) (db (world s))) as [backlog ->].
    pose proof (event_generator_loop_valid s c (or_zero lei) backlog [] Hv) as H.
    destruct (event_generator_loop _ _ _) as [[st frames] w'].
    intros [= <-]. apply H. by rewrite Hc.
  - destruct (conns s !! c) as [[[cursor item rest| |] out|]|] eqn:Hc; try done.
    unfold event_generator_resume.
    pose proof (event_generator_loop_valid s c (Notification.seq item) rest out Hv) as H.
    destruct (event_generator_loop _ _ _) as [[st frames] w'].
    intros [= <-]. apply H. by rewrite Hc.
  - destruct (conns s !! c) as [[[|cursor queue|] out|]|] eqn:Hc; try done.
    destruct (event_generator_live _ _ _ _ _) as [[[st frames] w']|] eqn:E; [|done].
    intros [= <-]. by eapply event_generator_live_valid.
  - destruct (conns s !! c) as [[[cursor item rest|cursor queue|] out|]|] eqn:Hc;
      try done; intros [= <-]; simpl.
    + apply valid_conn_same; try done. by rewrite Hc.
    + apply valid_unsubscribe; try done. by rewrite Hc.
  - destruct (conns s !! c) eqn:Hc; [done|].
    intros [= <-]. apply (valid_subscribe s c (Ws (WsHandshake _) [])); try done.
    by rewrite Hc.
  - destruct (conns s !! c) as [[|[queue| | | |] out]|] eqn:Hc; try done.
    destruct (websocket_endpoint_hello _ _ _) as [[st w']|] eqn:E; [|done].
    intros [= <-]. by eapply websocket_endpoint_hello_valid.
  - destruct (conns s !! c) as [[|[|queue backlog| | |] out]|] eqn:Hc; try done.
    destruct (websocket_endpoint_send _ _ _) as [[[st frames] w']|] eqn:E; [|done].
    intros [= <-]. by eapply websocket_endpoint_send_valid.
  - destruct (conns s !! c) as [[|[|queue backlog| | |] out]|] eqn:Hc; try done.
    intros [= <-]. simpl. apply valid_unsubscribe; try done. by rewrite Hc.
Qed.

Lemma run_valid acts s s' : valid s → run acts s = Some s' → valid s'.
Proof.
  revert s. induction acts as [|a acts IH]; simpl; intros s Hv.
  - by intros [= <-].
  - destruct (step a s) as [s1|] eqn:E; [|done]. simpl.
    apply IH. by eapply step_valid.
Qed.

(** ** Exclusive ownership of a queue *)

Lemma untouched_refl q w : untouched q w w.
Proof. done. Qed.

Lemma untouched_trans q w1 w2 w3 :
  untouched q w1 w2 → untouched q w2 w3 → untouched q w1 w3.
Proof. intros [??] [??]. split; congruence. Qed.

Lemma untouched_subscribe q w :
  is_Some (queues w !! q) → untouched q w (Broadcaster.subscribe w).2.
Proof.
  intros Hq. split; [done|]. simpl. apply lookup_insert_ne.
  intros Heq. pose proof (subscribe_fresh w) as Hf. simpl in Hf.
  rewrite <- Heq, Hf in Hq. by destruct Hq.
Qed.

Lemma untouched_unsubscribe q q2 w : untouched q w (Broadcaster.unsubscribe q2 w).
Proof. unfold Broadcaster.unsubscribe. by case_decide. Qed.

Lemma untouched_pop q q2 rest w :
  q2 ≠ q →
  untouched q w (mkWorld (db w) (_subscribers w) (<[q2 := rest]> (queues w))).
Proof. intros Hne. split; [done|]. simpl. by apply lookup_insert_ne. Qed.

Lemma event_generator_loop_untouched q cursor backlog w :
  is_Some (queues w !! q) →
  untouched q w (event_generator_loop cursor backlog w).2.
Proof.
  intros Hq. destruct backlog; [|done]. by apply untouched_subscribe.
Qed.

Lemma event_generator_live_untouched q cursor q2 disconnected idle w st frames w' :
  q2 ≠ q →
  event_generator_live cursor q2 disconnected idle w = Some (st, frames, w') →
  untouched q w w'.
Proof.
  intros Hne. unfold event_generator_live, wait_for.
  intros H. repeat case_match; simplify_eq;
    eauto using untouched_refl, untouched_unsubscribe, untouched_pop.
  eapply untouched_trans; [by apply untouched_pop|apply untouched_unsubscribe].
Qed.

Lemma websocket_endpoint_hello_world q2 arrival w st w' :
  websocket_endpoint_hello q2 arrival w = Some (st, w') →
  (w' = w ∧ ∃ backlog, st = WsStreaming q2 backlog)
  ∨ (w' = Broadcaster.unsubscribe q2 w
     ∧ (st = WsClosed policy_violation ∨ ∃ x, st = WsRaised x)).
Proof.
  unfold websocket_endpoint_hello, wait_for.
  intros H. repeat case_match; simplify_eq; eauto 6.
Qed.

Lemma websocket_endpoint_send_untouched q q2 backlog w st frames w' :
  q2 ≠ q →
  websocket_endpoint_send q2 backlog w = Some (st, frames, w') →
  untouched q w w'.
Proof.
  intros Hne. unfold websocket_endpoint_send.
  intros H. repeat case_match; simplify_eq;
    eauto using untouched_refl, untouched_pop.
Qed.

(** The actions of other connections leave a connection's entry alone. *)
Lemma step_other_conn a s s' c :
  actor a ≠ Some c → step a s = Some s' → conns s' !! c = conns s !! c.
Proof.
  intros Hact.
  destruct a; simpl in *; intros H;
    repeat case_match; simplify_option_eq; try done;
    repeat match goal with x : (_ * _)%type |- _ => destruct x end;
    simplify_eq; simpl; by rewrite lookup_insert_ne by congruence.
Qed.

(** ... and neither the table nor its queue. *)
Lemma step_other_world a s s' c c2 k q :
  valid s →
  conns s !! c = Some k → conn_queue k = Some q →
  actor a = Some c2 → c2 ≠ c →
  step a s = Some s' →
  untouched q (world s) (world s').
Proof.
  intros Hv Hc Hq Hact Hne.
  assert (Halloc : is_Some (queues (world s) !! q)).
  { eapply valid_alloc, valid_held; eauto. }
  assert (Hother : ∀ k2 q2, conns s !! c2 = Some k2 → conn_queue k2 = Some q2 → q2 ≠ q).
  { intros k2 q2 H2 Hq2 ->. apply Hne. eapply (valid_owner s Hv c2 c); eauto. }
  destruct a; simpl in Hact; simplify_eq; simpl.
  - destruct (conns s !! c2); [done|]. unfold event_generator_start.
    destruct (range_200 (or_zero last_event_id) (db (world s))) as [backlog ->].
    pose proof (event_generator_loop_untouched q (or_zero last_event_id) backlog _ Halloc).
    destruct (event_generator_loop _ _ _) as [[??]?]. by intros [= <-].
  - destruct (conns s !! c2) as [[[cursor item rest| |] out|]|]; try done.
    unfold event_generator_resume.
    pose proof (event_generator_loop_untouched q (Notification.seq item) rest _ Halloc).
    destruct (event_generator_loop _ _ _) as [[??]?]. by intros [= <-].
  - destruct (conns s !! c2) as [[[|cursor q2|] out|]|] eqn:H2; try done.
    destruct (event_generator_live _ _ _ _ _) as [[[st frames] w']|] eqn:E; [|done].
    intros [= <-]. simpl. eapply event_generator_live_untouched; [|done].
    eapply Hother; [done|]. done.
  - destruct (conns s !! c2) as [[[cursor item rest|cursor q2|] out|]|]; try done;
      intros [= <-]; simpl; [done|apply untouched_unsubscribe].
  - destruct (conns s !! c2); [done|]. intros [= <-]. simpl.
    by apply (untouched_subscribe q (world s)).
  - destruct (conns s !! c2) as [[|[q2| | | |] out]|]; try done.
    destruct (websocket_endpoint_hello _ _ _) as [[st w']|] eqn:E; [|done].
    intros [= <-]. simpl.
    apply websocket_endpoint_hello_world in E as [[-> _]|[-> _]];
      [done|apply untouched_unsubscribe].
  - destruct (conns s !! c2) as [[|[|q2 backlog| | |] out]|] eqn:H2; try done.
    destruct (websocket_endpoint_send _ _ _) as [[[st frames] w']|] eqn:E; [|done].
    intros [= <-]. simpl. eapply websocket_endpoint_send_untouched; [|done].
    eapply Hother; [done|]. done.
  - destruct (conns s !! c2) as [[|[|q2 backlog| | |] out]|]; try done.
    intros [= <-]. simpl. apply untouched_unsubscribe.
Qed.

(** ** What reaches a queue *)

Lemma created_since_refl s : created_since s s = [].
Proof. apply drop_all. Qed.

Lemma created_since_same_db s s' :
  db (world s') = db (world s) → created_since s s' = [].
Proof. unfold created_since. intros ->. apply drop_all. Qed.

(** Only [create_notification] writes to the table. *)
Lemma step_db a s s' c :
  actor a = Some c → step a s = Some s' → db (world s') = db (world s).
Proof.
  destruct a; simpl; intros Hact H; simplify_eq;
    unfold event_generator_start, event_generator_resume, event_generator_loop,
      event_generator_live, event_generator_close, websocket_endpoint_accept,
      websocket_endpoint_hello, websocket_endpoint_send,
      websocket_endpoint_disconnect, Broadcaster.unsubscribe,
      Broadcaster.subscribe, wait_for in *;
    repeat case_match; simplify_option_eq; try done;
    repeat case_match; simplify_eq; done.
Qed.

(** The table only grows. *)
Lemma step_rows a s s' :
  valid s → step a s = Some s' →
  Store.rows (db (world s')) = Store.rows (db (world s)) ++ created_since s s'.
Proof.
  intros Hv H. destruct (actor a) as [c|] eqn:Hact.
  - rewrite created_since_same_db by (by eapply step_db).
    rewrite app_nil_r. f_equal. by eapply step_db.
  - destruct a; simplify_eq; simpl in H; simplify_eq.
    + destruct (create_notification_effect data uuid now engine (world s))
        as (new & Hr & _); [apply Hv|].
      unfold created_since. simpl. rewrite Hr. by rewrite drop_app_length.
    + unfold created_since. simpl. rewrite get_notifications_world.
      by rewrite drop_all, app_nil_r.
Qed.

Lemma created_since_trans s1 s2 s3 :
  Store.rows (db (world s2)) = Store.rows (db (world s1)) ++ created_since s1 s2 →
  Store.rows (db (world s3)) = Store.rows (db (world s2)) ++ created_since s2 s3 →
  created_since s1 s3 = created_since s1 s2 ++ created_since s2 s3.
Proof.
  intros H12 H23. unfold created_since at 1.
  by rewrite H23, H12, <- app_assoc, drop_app_length.
Qed.

Lemma run_rows acts s s' :
  valid s → run acts s = Some s' →
  Store.rows (db (world s')) = Store.rows (db (world s)) ++ created_since s s'.
Proof.
  revert s. induction acts as [|a acts IH]; simpl; intros s Hv.
  - intros [= <-]. by rewrite created_since_refl, app_nil_r.
  - destruct (step a s) as [s1|] eqn:E; [|done]. simpl. intros Hrun.
    pose proof (step_rows _ _ _ Hv E) as H1.
    pose proof (IH _ (step_valid _ _ _ Hv E) Hrun) as H2.
    rewrite (created_since_trans s s1 s') by done.
    by rewrite H2, H1, app_assoc.
Qed.

(** While a connection holds a queue, a step of anybody else appends to it
    the [to_dict] of exactly the rows created by that step. *)
Lemma step_mailbox a s s' c k q :
  valid s →
  conns s !! c = Some k → conn_queue k = Some q →
  actor a ≠ Some c →
  step a s = Some s' →
  mailbox s' q = mailbox s q ++ (to_dict <$> created_since s s').
Proof.
  intros Hv Hc Hq Hact H.
  assert (Hin : q ∈ _subscribers (world s)) by (eapply valid_held; eauto).
  destruct (valid_alloc s Hv q Hin) as [items Hitems].
  destruct (actor a) as [c2|] eqn:Ha.
  - assert (c2 ≠ c) by congruence.
    destruct (step_other_world a s s' c c2 k q) as [Hdb Hqs]; try done.
    unfold mailbox. rewrite Hqs, created_since_same_db by done.
    by rewrite app_nil_r.
  - destruct a; simplify_eq; simpl in H; simplify_eq.
    + destruct (create_notification_effect data uuid now engine (world s))
        as (new & Hr & _ & Hqs & _); [apply Hv|].
      unfold mailbox, created_since. simpl.
      rewrite Hqs, decide_True, Hitems, Hr by done. simpl.
      by rewrite drop_app_length.
    + unfold mailbox, created_since. simpl. rewrite get_notifications_world.
      by rewrite drop_all, app_nil_r.
Qed.

(** ** The bidirectional stream, phase by phase *)

Lemma websocket_endpoint_hello_phase queue arrival w st w' :
  websocket_endpoint_hello queue arrival w = Some (st, w') → (1 ≤ ws_phase st)%nat.
Proof.
  intros [[_ [b ->]]|[_ [->|[x ->]]]]%websocket_endpoint_hello_world; simpl; lia.
Qed.

(** A connection never goes back to an earlier phase. *)
Lemma step_ws_phase a s s' c st out :
  step a s = Some s' →
  conns s !! c = Some (Ws st out) →
  ∃ st' out', conns s' !! c = Some (Ws st' out') ∧ (ws_phase st ≤ ws_phase st')%nat.
Proof.
  intros H Hc. destruct (decide (actor a = Some c)) as [Ha|Ha].
  - destruct a; simpl in Ha; simplify_eq; simpl in H; rewrite Hc in H; try done.
    + destruct st; try done.
      destruct (websocket_endpoint_hello _ _ _) as [[st' w']|] eqn:E; [|done].
      simpl in H. simplify_eq. simpl. rewrite lookup_insert_eq.
      eexists _, _. split; [done|]. simpl. lia.
    + destruct st; try done.
      destruct (websocket_endpoint_send _ _ _) as [[[st' frames] w']|] eqn:E; [|done].
      simpl in H. simplify_eq. simpl. rewrite lookup_insert_eq.
      eexists _, _. split; [done|].
      unfold websocket_endpoint_send in E. repeat case_match; simplify_eq; simpl; lia.
    + destruct st; try done. simpl in H. simplify_eq. simpl.
      rewrite lookup_insert_eq. eexists _, _. split; [done|]. simpl. lia.
  - rewrite (step_other_conn a s s' c) by done. eauto.
Qed.

Lemma run_ws_phase acts s s' c st out :
  run acts s = Some s' →
  conns s !! c = Some (Ws st out) →
  ∃ st' out', conns s' !! c = Some (Ws st' out') ∧ (ws_phase st ≤ ws_phase st')%nat.
Proof.
  revert s st out. induction acts as [|a acts IH]; simpl; intros s st out.
  - intros [= <-] Hc. eauto.
  - destruct (step a s) as [s1|] eqn:E; [|done]. simpl. intros Hrun Hc.
    destruct (step_ws_phase _ _ _ _ _ _ E Hc) as (st1 & out1 & Hc1 & Hle1).
    destruct (IH _ _ _ Hrun Hc1) as (st' & out' & Hc' & Hle').
    eexists _, _. split; [done|]. lia.
Qed.

(** One step during the handshake. *)
Lemma ws_handshake_step a s s' c q out q' out' :
  valid s →
  conns s !! c = Some (Ws (WsHandshake q) out) →
  step a s = Some s' →
  conns s' !! c = Some (Ws (WsHandshake q') out') →
  q' = q ∧ out' = out
  ∧ mailbox s' q = mailbox s q ++ (to_dict <$> created_since s s').
Proof.
  intros Hv Hc H Hc'. destruct (decide (actor a = Some c)) as [Ha|Ha].
  - destruct a; simpl in Ha; simplify_eq; simpl in H; rewrite Hc in H; try done.
    destruct (websocket_endpoint_hello _ _ _) as [[st' w']|] eqn:E; [|done].
    simpl in H. simplify_eq. simpl in Hc'. rewrite lookup_insert_eq in Hc'.
    apply websocket_endpoint_hello_phase in E. simplify_eq. simpl in E. lia.
  - rewrite (step_other_conn a s s' c) in Hc' by done. simplify_eq.
    split; [done|]. split; [done|]. by eapply step_mailbox.
Qed.

(** One step during the streaming phase. *)
Lemma ws_streaming_step a s s' c q backlog out q' backlog' out' :
  valid s →
  conns s !! c = Some (Ws (WsStreaming q backlog) out) →
  step a s = Some s' →
  conns s' !! c = Some (Ws (WsStreaming q' backlog') out') →
  q' = q
  ∧ ws_stream out' backlog' (mailbox s' q)
    = ws_stream out backlog (mailbox s q ++ (to_dict <$> created_since s s')).
Proof.
  intros Hv Hc H Hc'. destruct (decide (actor a = Some c)) as [Ha|Ha].
  - assert (Hdb : created_since s s' = [])
      by (eapply created_since_same_db, step_db; eauto).
    rewrite Hdb. simpl. rewrite app_nil_r.
    destruct a; simpl in Ha; simplify_eq; simpl in H; rewrite Hc in H; try done.
    + destruct (websocket_endpoint_send _ _ _) as [[[st' frames] w']|] eqn:E; [|done].
      simpl in H. simplify_eq. simpl in Hc'. rewrite lookup_insert_eq in Hc'.
      unfold websocket_endpoint_send in E. unfold ws_stream, mailbox.
      destruct backlog as [|item rest].
      * destruct (default [] (queues (world s) !! q)) as [|msg rest] eqn:Hq; [done|].
        simplify_eq. split; [done|]. simpl. rewrite lookup_insert_eq. simpl.
        by rewrite <- app_assoc.
      * simplify_eq. split; [done|]. simpl. by rewrite <- app_assoc.
    + simpl in H. simplify_eq. simpl in Hc'. by rewrite lookup_insert_eq in Hc'.
  - rewrite (step_other_conn a s s' c) in Hc' by done. simplify_eq.
    split; [done|]. f_equal. by eapply step_mailbox.
Qed.

Lemma run_ws_handshake acts s s' c q out q' out' :
  valid s →
  conns s !! c = Some (Ws (WsHandshake q) out) →
  run acts s = Some s' →
  conns s' !! c = Some (Ws (WsHandshake q') out') →
  q' = q ∧ out' = out
  ∧ mailbox s' q = mailbox s q ++ (to_dict <$> created_since s s').
Proof.
  revert s. induction acts as [|a acts IH]; simpl; intros s Hv Hc.
  - intros [= <-] Hc'. simplify_eq.
    by rewrite created_since_refl, app_nil_r.
  - destruct (step a s) as [s1|] eqn:E; [|done]. simpl. intros Hrun Hc'.
    destruct (step_ws_phase _ _ _ _ _ _ E Hc) as (st1 & out1 & Hc1 & _).
    destruct (run_ws_phase _ _ _ _ _ _ Hrun Hc1) as (st2 & out2 & Hc2 & Hle).
    rewrite Hc' in Hc2. simplify_eq. destruct st1; simpl in Hle; try lia.
    destruct (ws_handshake_step _ _ _ _ _ _ _ _ Hv Hc E Hc1) as (-> & -> & Hm1).
    pose proof (step_valid _ _ _ Hv E) as Hv1.
    destruct (IH _ Hv1 Hc1 Hrun Hc') as (-> & -> & Hm2).
    split; [done|]. split; [done|].
    rewrite (created_since_trans s s1 s') by eauto using step_rows, run_rows.
    by rewrite Hm2, Hm1, fmap_app, app_assoc.
Qed.

Lemma run_ws_streaming acts s s' c q backlog out q' backlog' out' :
  valid s →
  conns s !! c = Some (Ws (WsStreaming q backlog) out) →
  run acts s = Some s' →
  conns s' !! c = Some (Ws (WsStreaming q' backlog') out') →
  q' = q
  ∧ ws_stream out' backlog' (mailbox s' q)
    = ws_stream out backlog (mailbox s q ++ (to_dict <$> created_since s s')).
Proof.
  revert s backlog out. induction acts as [|a acts IH]; simpl; intros s backlog out Hv Hc.
  - intros [= <-] Hc'. simplify_eq.
    by rewrite created_since_refl, app_nil_r.
  - destruct (step a s) as [s1|] eqn:E; [|done]. simpl. intros Hrun Hc'.
    destruct (step_ws_phase _ _ _ _ _ _ E Hc) as (st1 & out1 & Hc1 & Hge).
    destruct (run_ws_phase _ _ _ _ _ _ Hrun Hc1) as (st2 & out2 & Hc2 & Hle).
    rewrite Hc' in Hc2. simplify_eq. destruct st1; simpl in Hle, Hge; try lia.
    destruct (ws_streaming_step _ _ _ _ _ _ _ _ _ _ Hv Hc E Hc1) as (-> & Hm1).
    pose proof (step_valid _ _ _ Hv E) as Hv1.
    destruct (IH _ _ _ Hv1 Hc1 Hrun Hc') as (-> & Hm2).
    split; [done|].
    rewrite (created_since_trans s s1 s') by eauto using step_rows, run_rows.
    rewrite Hm2. unfold ws_stream in *.
    rewrite !fmap_app, !app_assoc in *. by rewrite Hm1.
Qed.

(** *** Draining *)

Lemma ws_drain_queue c q (queued : list dict) : ∀ s out,
  conns s !! c = Some (Ws (WsStreaming q []) out) →
  mailbox s q = queued →
  ∃ s', run (repeat (WsSend c) (length queued)) s = Some s'
        ∧ conns s' !! c
          = Some (Ws (WsStreaming q []) (out ++ (notification_message <$> queued)))
        ∧ mailbox s' q = []
        ∧ db (world s') = db (world s).
Proof.
  induction queued as [|msg rest IH]; intros s out Hc Hq; simpl.
  - exists s. by rewrite app_nil_r.
  - rewrite Hc. simpl. unfold mailbox in Hq. rewrite Hq. simpl.
    destruct (IH (mkSystem
                    (mkWorld (db (world s)) (_subscribers (world s))
                       (<[q := rest]> (queues (world s))))
                    (<[c := Ws (WsStreaming q []) (out ++ [notification_message msg])]>
                       (conns s)))
                (out ++ [notification_message msg]))
      as (s' & Hrun & Hc' & Hq' & Hdb).
    { simpl. by rewrite lookup_insert_eq. }
    { unfold mailbox. simpl. by rewrite lookup_insert_eq. }
    exists s'. split; [exact Hrun|]. by rewrite Hc', <- app_assoc.
Qed.

Lemma ws_drain c q (backlog : list Notification.t) : ∀ s out,
  conns s !! c = Some (Ws (WsStreaming q backlog) out) →
  ∃ s', run (repeat (WsSend c) (length backlog + length (mailbox s q))) s = Some s'
        ∧ conns s' !! c
          = Some (Ws (WsStreaming q []) (ws_stream out backlog (mailbox s q)))
        ∧ mailbox s' q = []
        ∧ db (world s') = db (world s).
Proof.
  induction backlog as [|item rest IH]; intros s out Hc.
  - simpl. unfold ws_stream. simpl. by apply ws_drain_queue.
  - cbn [length Nat.add repeat run]. simpl. rewrite Hc. simpl.
    edestruct (IH (mkSystem (world s)
                 (<[c := Ws (WsStreaming q rest)
                            (out ++ [notification_message (to_dict item)])]> (conns s))))
      as (s' & Hrun & Hc' & Hq' & Hdb).
    { simpl. by rewrite lookup_insert_eq. }
    exists s'. split; [exact Hrun|]. split; [|done].
    rewrite Hc'. unfold ws_stream, mailbox. simpl. by rewrite <- app_assoc.
Qed.

(** *** Order of the replayed and of the live part *)

Lemma StronglySorted_sublist {A} (R : relation A) (k l : list A) :
  k `sublist_of` l → StronglySorted R l → StronglySorted R k.
Proof.
  induction 1 as [|x k l Hkl IH|x k l Hkl IH]; intros Hl.
  - constructor.
  - apply StronglySorted_inv in Hl as [Hl Hx]. constructor; [by apply IH|].
    rewrite Forall_forall in Hx |- *. intros y Hy. apply Hx.
    by eapply elem_of_sublist.
  - apply StronglySorted_inv in Hl as [Hl _]. by apply IH.
Qed.

Lemma seq_lt_unique (l : list Notification.t) x y :
  StronglySorted seq_lt l → x ∈ l → y ∈ l →
  Notification.seq x = Notification.seq y → x = y.
Proof.
  induction 1 as [|z l Hl IH Hz]; [by intros ?%elem_of_nil|].
  rewrite Forall_forall in Hz. unfold seq_lt in Hz.
  intros [->|Hx]%elem_of_cons [->|Hy]%elem_of_cons Heq; try done.
  - specialize (Hz _ Hy). lia.
  - specialize (Hz _ Hx). lia.
  - by apply IH.
Qed.

(** On a table in increasing [seq] order, [order_by] changes nothing. *)
Lemma merge_sort_sorted (l : list Notification.t) :
  StronglySorted seq_lt l → merge_sort Store.seq_le l = l.
Proof.
  intros Hl. apply (StronglySorted_unique_strong Store.seq_le).
  - intros x y Hx Hy Hxy Hyx. unfold Store.seq_le in *.
    rewrite merge_sort_Permutation in Hx.
    apply (seq_lt_unique l); try done. lia.
  - apply (StronglySorted_merge_sort _).
  - clear -Hl. induction Hl as [|z l Hl IH Hz]; constructor; [done|].
    eapply Forall_impl; [exact Hz|]. unfold seq_lt, Store.seq_le. intros; lia.
  - apply merge_sort_Permutation.
Qed.

Lemma range_sorted after_seq limit d :
  store_ok d → 0 ≤ limit →
  Store.range after_seq limit d
  = Some (take (Z.to_nat limit)
            (filter (λ n, after_seq < Notification.seq n) (Store.rows d))).
Proof.
  intros [Hs _] Hl. unfold Store.range. rewrite decide_False by lia.
  rewrite merge_sort_sorted; [done|].
  eapply StronglySorted_sublist; [apply sublist_filter|done].
Qed.

Lemma range_sorted_lt after_seq limit d backlog :
  store_ok d → Store.range after_seq limit d = Some backlog →
  StronglySorted seq_lt backlog.
Proof.
  intros Hok. unfold Store.range. case_decide; [done|].
  rewrite merge_sort_sorted.
  - intros [= <-]. eapply StronglySorted_sublist; [|apply Hok].
    etrans; [apply sublist_take|apply sublist_filter].
  - eapply StronglySorted_sublist; [apply sublist_filter|apply Hok].
Qed.

Lemma created_since_sorted s s' :
  valid s' → StronglySorted seq_lt (created_since s s').
Proof.
  intros Hv. eapply StronglySorted_sublist; [apply sublist_drop|apply Hv].
Qed.

(** ** Polling again *)

(** The answer to a polling request is a function of the rows of the table:
    neither the sequence, the subscriber list nor the queues enter it. *)
Lemma get_notifications_rows after_seq limit w1 w2 :
  Store.rows (db w1) = Store.rows (db w2) →
  (get_notifications after_seq limit w1).1 = (get_notifications after_seq limit w2).1.
Proof.
  intros H. unfold get_notifications, poll_notifications, Store.range.
  rewrite H. repeat case_match; simplify_eq; done.
Qed.

Lemma run_db_without_create acts s s' :
  Forall (λ a, ∀ data uuid now engine, a ≠ Create data uuid now engine) acts →
  run acts s = Some s' → db (world s') = db (world s).
Proof.
  revert s. induction acts as [|a acts IH]; simpl; intros s Hall.
  - by intros [= <-].
  - apply Forall_cons in Hall as [Ha Hall].
    destruct (step a s) as [s1|] eqn:E; [|done]. simpl. intros Hrun.
    rewrite (IH _ Hall Hrun).
    destruct (actor a) as [c|] eqn:Hact; [by eapply step_db|].
    destruct a; simplify_eq.
    + by destruct (Ha data uuid now engine).
    + simpl in E. injection E as <-. simpl. by rewrite get_notifications_world.
Qed.

(** C7.  Polling is free of side effects: the handler hands back the world
    it was given (table, subscriber list, queues) and a [Poll] step leaves
    the whole process, every connection included, as it was.  Polling is
    idempotent: the answer depends on the cursor, the limit and the rows of
    the table only, so a second execution with the same [after_seq] and
    [limit] gets the identical result in every world holding the same rows,
    whatever its subscribers and queues, and in particular after any
    schedule of the process that contains no write. *)
Theorem get_notifications_idempotent (after_seq limit : option Z) (s : System) :
  let (r, w') := get_notifications after_seq limit (world s) in
  w' = world s
  ∧ db w' = db (world s)
  ∧ _subscribers w' = _subscribers (world s)
  ∧ queues w' = queues (world s)
  ∧ step (Poll after_seq limit) s = Some s
  ∧ (∀ w2, Store.rows (db w2) = Store.rows (db (world s)) →
       get_notifications after_seq limit w2 = (r, w2))
  ∧ (∀ acts s2,
       Forall (λ a, ∀ data uuid now engine, a ≠ Create data uuid now engine) acts →
       run acts s = Some s2 →
       get_notifications after_seq limit (world s2) = (r, world s2)).
Proof.
  pose proof (get_notifications_world after_seq limit (world s)) as Hw.
  assert (Hstep : step (Poll after_seq limit) s = Some s).
  { simpl. rewrite Hw. by destruct s. }
  assert (Hsame : ∀ w2, Store.rows (db w2) = Store.rows (db (world s)) →
            get_notifications after_seq limit w2
            = ((get_notifications after_seq limit (world s)).1, w2)).
  { intros w2 H2.
    rewrite <- (get_notifications_rows after_seq limit w2 (world s) H2).
    rewrite <- (get_notifications_world after_seq limit w2) at 3.
    by destruct (get_notifications after_seq limit w2). }
  destruct (get_notifications after_seq limit (world s)) as [r w'] eqn:E.
  simpl in Hw, Hsame. subst w'. split_and!; try done.
  intros acts s2 Hall Hrun. apply Hsame.
  by rewrite (run_db_without_create _ _ _ Hall Hrun).
Qed.

(** ** The claims about the streaming transports *)

Lemma websocket_endpoint_hello_rejected queue arrival w :
  rejected arrival →
  websocket_endpoint_hello queue arrival w
  = Some (WsClosed 1008, Broadcaster.unsubscribe queue w).
Proof.
  unfold websocket_endpoint_hello, wait_for, rejected.
  destruct arrival as [[t m]|]; [|done].
  case_decide; [|done].
  intros [?|[->|[->|(hello_msg & -> & Hty)]]]; try done; [lia|].
  destruct (hello_msg !! "type") as [[| | |ty| |]|]; try done.
  case_decide; [|done]. by subst.
Qed.

Lemma websocket_endpoint_hello_accepted queue t hello_msg last_seq w :
  t < handshake_timeout →
  hello_msg !! "type" = Some (JStr "hello") →
  default (JInt 0) (hello_msg !! "last_seq") = JInt last_seq →
  websocket_endpoint_hello queue (Some (t, Decoded (JObj hello_msg))) w
  = (λ backlog, (WsStreaming queue backlog, w)) <$> Store.range last_seq 200 (db w).
Proof.
  intros Ht Hty Hseq. unfold websocket_endpoint_hello, wait_for.
  rewrite decide_True by done. rewrite Hty, decide_True by done.
  rewrite Hseq. destruct (range_200 last_seq (db w)) as [backlog ->]. done.
Qed.

Lemma ws_accept_step s c s1 :
  valid s → step (WsAccept c) s = Some s1 →
  ∃ q, conns s1 !! c = Some (Ws (WsHandshake q) [])
       ∧ (q ∉ _subscribers (world s))
       ∧ _subscribers (world s1) = _subscribers (world s) ++ [q]
       ∧ mailbox s1 q = []
       ∧ db (world s1) = db (world s).
Proof.
  intros Hv. simpl. destruct (conns s !! c); [done|]. intros [= <-].
  eexists. simpl. rewrite lookup_insert_eq. split; [done|]. split_and!; try done.
  - intros Hin. apply (valid_alloc s Hv) in Hin.
    pose proof (subscribe_fresh (world s)) as Hf. simpl in Hf.
    rewrite Hf in Hin. by destruct Hin.
  - unfold mailbox. simpl. by rewrite lookup_insert_eq.
Qed.

(** C8.  In the live loop of the push stream, when the wait on the queue
    has lasted 15 time units and the client is still there, the generator
    yields the comment frame and nothing else, stays in the loop with the
    same cursor and the same queue, and leaves the world as it was. *)
Theorem sse_keepalive (s : System) (c : nat) (cursor : Z) (queue : qid)
    (out : list sse_frame) (idle : Z) :
  conns s !! c = Some (Sse (SseLive cursor queue) out) →
  15 ≤ idle →
  step (SseWake c false idle) s
  = Some (mkSystem (world s)
            (<[c := Sse (SseLive cursor queue) (out ++ [SseComment "ping"])]> (conns s))).
Proof.
  intros Hc Hidle. simpl. rewrite Hc. unfold event_generator_live, wait_for.
  destruct (default [] (queues (world s) !! queue)) as [|msg rest].
  - by rewrite decide_False by (unfold keepalive_timeout; lia).
  - by rewrite decide_False by (unfold keepalive_timeout; lia).
Qed.

(** C3 (as amended).  In the live phase of either streaming transport the
    message at the head of the queue is taken off and written to the client
    whatever its [seq]; the push stream keeps its cursor as it was. *)
Theorem live_drain_forwards_every_message (w : World) (queue : qid) (msg : dict)
    (rest : list dict) (cursor idle : Z) (s : json) :
  queues w !! queue = Some (msg :: rest) →
  msg !! "seq" = Some s →
  idle < 15 →
  let w' := mkWorld (db w) (_subscribers w) (<[queue := rest]> (queues w)) in
  websocket_endpoint_send queue [] w
  = Some (WsStreaming queue [], [notification_message msg], w')
  ∧ event_generator_live cursor queue false idle w
    = Some (SseLive cursor queue, [SseEvent s "notification" msg], w').
Proof.
  intros Hq Hs Hidle. unfold websocket_endpoint_send, event_generator_live, wait_for.
  rewrite Hq. simpl.
  rewrite decide_True by (unfold keepalive_timeout; lia). by rewrite Hs.
Qed.

(** C4 (as amended).  The endpoint subscribes when it accepts the
    connection.  If the first message is then rejected, the connection is
    closed with code 1008 with nothing written to it, and the queue that was
    registered since the accept is removed from the subscriber list; the
    table is not touched. *)
Theorem handshake_rejection (s0 s1 s2 : System) (c : nat) (acts : list action)
    (q : qid) (out : list dict) (arrival : option (Z * inbound)) :
  valid s0 →
  step (WsAccept c) s0 = Some s1 →
  run acts s1 = Some s2 →
  conns s2 !! c = Some (Ws (WsHandshake q) out) →
  rejected arrival →
  ∃ s3,
    step (WsFirst c arrival) s2 = Some s3
    ∧ conns s3 !! c = Some (Ws (WsClosed 1008) [])
    ∧ (q ∉ _subscribers (world s0))
    ∧ q ∈ _subscribers (world s1)
    ∧ q ∈ _subscribers (world s2)
    ∧ (q ∉ _subscribers (world s3))
    ∧ db (world s3) = db (world s2).
Proof.
  intros Hv0 Hacc Hrun Hc Hrej.
  pose proof (step_valid _ _ _ Hv0 Hacc) as Hv1.
  pose proof (run_valid _ _ _ Hv1 Hrun) as Hv2.
  destruct (ws_accept_step _ _ _ Hv0 Hacc) as (q1 & Hc1 & Hfresh & Hsubs & _ & _).
  destruct (run_ws_handshake _ _ _ _ _ _ _ _ Hv1 Hc1 Hrun Hc) as (-> & -> & _).
  assert (Hin2 : q1 ∈ _subscribers (world s2)) by (eapply valid_held; eauto).
  eexists. simpl. rewrite Hc. rewrite websocket_endpoint_hello_rejected by done.
  simpl. split; [done|]. cbn [conns world]. rewrite lookup_insert_eq.
  split_and!; try done.
  - rewrite Hsubs. apply elem_of_app. right. by apply list_elem_of_singleton.
  - unfold Broadcaster.unsubscribe. rewrite decide_True by done. simpl.
    apply not_elem_of_remove, Hv2.
  - apply (untouched_unsubscribe q1 q1 (world s2)).
Qed.

(** C10 (as amended).  A first message [{"type": "hello"}] without
    [last_seq] is accepted exactly like one with [last_seq = 0]: the
    connection enters the streaming phase with, as backlog, the first 200
    stored notifications with [seq > 0] in increasing order (all of them when
    there are at most 200), and sending them one by one succeeds. *)
Theorem hello_without_cursor_replays_from_zero (s : System) (c : nat) (q : qid)
    (out : list dict) (t : Z) (hello_msg : dict) :
  valid s →
  conns s !! c = Some (Ws (WsHandshake q) out) →
  t < 5 →
  hello_msg !! "type" = Some (JStr "hello") →
  hello_msg !! "last_seq" = None →
  let stored := filter (λ n, 0 < Notification.seq n) (Store.rows (db (world s))) in
  let s' := mkSystem (world s) (<[c := Ws (WsStreaming q (take 200 stored)) []]> (conns s)) in
  step (WsFirst c (Some (t, Decoded (JObj hello_msg)))) s = Some s'
  ∧ step (WsFirst c (Some (t, Decoded (JObj (<["last_seq" := JInt 0]> hello_msg))))) s
    = Some s'
  ∧ StronglySorted seq_lt (take 200 stored)
  ∧ ((length stored ≤ 200)%nat → take 200 stored = stored)
  ∧ ∃ s'', run (repeat (WsSend c) (length (take 200 stored))) s' = Some s''
           ∧ conns s'' !! c
             = Some (Ws (WsStreaming q [])
                       (notification_message ∘ to_dict <$> take 200 stored)).
Proof.
  intros Hv Hc Ht Hty Hseq stored s'.
  assert (Hout : out = []) by (by apply (valid_conn s Hv c _ Hc)).
  assert (Hrange : Store.range 0 200 (db (world s)) = Some (take 200 stored)).
  { rewrite range_sorted; [done|apply Hv|lia]. }
  split_and!.
  - simpl. rewrite Hc.
    rewrite (websocket_endpoint_hello_accepted _ _ _ 0); try done.
    + rewrite Hrange. simpl. by rewrite Hout.
    + by rewrite Hseq.
  - simpl. rewrite Hc.
    rewrite (websocket_endpoint_hello_accepted _ _ _ 0); try done.
    + rewrite Hrange. simpl. by rewrite Hout.
    + by rewrite lookup_insert_ne.
    + by rewrite lookup_insert_eq.
  - eapply range_sorted_lt; [apply Hv|exact Hrange].
  - intros Hlen. by apply take_ge.
  - subst s'. clear Hrange. generalize (take 200 stored). intros backlog.
    assert (Hgen : ∀ sent (conns0 : gmap nat conn),
      ∃ s'', run (repeat (WsSend c) (length backlog))
               (mkSystem (world s) (<[c := Ws (WsStreaming q backlog) sent]> conns0))
             = Some s''
             ∧ conns s'' !! c
               = Some (Ws (WsStreaming q [])
                         (sent ++ (notification_message ∘ to_dict <$> backlog)))).
    { induction backlog as [|item rest IH]; intros sent conns0; simpl.
      - eexists. split; [done|]. simpl. by rewrite lookup_insert_eq, app_nil_r.
      - rewrite lookup_insert_eq. simpl.
        destruct (IH (sent ++ [notification_message (to_dict item)])
                    (<[c := Ws (WsStreaming q (item :: rest)) sent]> conns0))
          as (s'' & Hrun & Hc'').
        exists s''. split; [done|]. by rewrite Hc'', <- app_assoc. }
    apply (Hgen [] (conns s)).
Qed.

(** C1 (as amended).  A client of the bidirectional stream whose hello
    carries the cursor [last_seq] and that stays connected is sent, in this
    order: the first 200 stored notifications with [seq > last_seq] as of the
    backlog query, then every notification created since its queue was
    registered at accept.  Both parts are in strictly increasing [seq] order;
    whatever has not been written yet is waiting in the backlog loop or in
    the queue, and sending until both are empty writes exactly the rest.  A
    notification created between the accept and the backlog query belongs to
    both parts and so is sent twice. *)
Theorem websocket_delivery (s0 s1 s2 s3 s4 : System) (c : nat)
    (acts1 acts2 : list action) (t : Z) (hello_msg : dict) (last_seq : Z)
    (q : qid) (backlog : list Notification.t) (out : list dict) :
  valid s0 →
  step (WsAccept c) s0 = Some s1 →
  run acts1 s1 = Some s2 →
  t < 5 →
  hello_msg !! "type" = Some (JStr "hello") →
  hello_msg !! "last_seq" = Some (JInt last_seq) →
  step (WsFirst c (Some (t, Decoded (JObj hello_msg)))) s2 = Some s3 →
  run acts2 s3 = Some s4 →
  conns s4 !! c = Some (Ws (WsStreaming q backlog) out) →
  let replay :=
    take 200 (filter (λ n, last_seq < Notification.seq n) (Store.rows (db (world s2)))) in
  let live := created_since s0 s4 in
  ws_stream out backlog (mailbox s4 q)
  = (notification_message ∘ to_dict <$> (replay ++ live))
  ∧ StronglySorted seq_lt replay
  ∧ StronglySorted seq_lt live
  ∧ ∃ s5,
      run (repeat (WsSend c) (length backlog + length (mailbox s4 q))) s4 = Some s5
      ∧ conns s5 !! c
        = Some (Ws (WsStreaming q []) (notification_message ∘ to_dict <$> (replay ++ live)))
      ∧ mailbox s5 q = [].
Proof.
  intros Hv0 Hacc Hrun1 Ht Hty Hseq Hfirst Hrun2 Hc4 replay live.
  pose proof (step_valid _ _ _ Hv0 Hacc) as Hv1.
  pose proof (run_valid _ _ _ Hv1 Hrun1) as Hv2.
  pose proof (step_valid _ _ _ Hv2 Hfirst) as Hv3.
  pose proof (run_valid _ _ _ Hv3 Hrun2) as Hv4.
  destruct (ws_accept_step _ _ _ Hv0 Hacc) as (q1 & Hc1 & _ & _ & Hm1 & Hdb1).
  assert (Hrange : Store.range last_seq 200 (db (world s2)) = Some replay).
  { rewrite range_sorted; [done|apply Hv2|lia]. }
  pose proof (run_rows _ _ _ Hv1 Hrun1) as Hrows12.
  pose proof (run_rows _ _ _ Hv3 Hrun2) as Hrows34.
  simpl in Hfirst.
  destruct (conns s2 !! c) as [[|[q2| | | |] out2]|] eqn:Hc2; try done.
  destruct (run_ws_handshake _ _ _ _ _ _ _ _ Hv1 Hc1 Hrun1 Hc2) as (-> & -> & Hm2).
  rewrite (websocket_endpoint_hello_accepted _ _ _ last_seq) in Hfirst; try done;
    [|by rewrite Hseq].
  rewrite Hrange in Hfirst. simpl in Hfirst. simplify_eq.
  match type of Hrun2 with run _ ?s = _ => set (s3 := s) in * end.
  assert (Hc3 : conns s3 !! c = Some (Ws (WsStreaming q1 replay) [])).
  { subst s3. simpl. by rewrite lookup_insert_eq. }
  destruct (run_ws_streaming _ _ _ _ _ _ _ _ _ _ Hv3 Hc3 Hrun2 Hc4) as (-> & Hstream).
  assert (Hlive : live = created_since s1 s2 ++ created_since s3 s4).
  { subst live. unfold created_since at 1. rewrite <- Hdb1.
    change (created_since s1 s4 = created_since s1 s2 ++ created_since s2 s4).
    apply created_since_trans; [done|exact Hrows34]. }
  assert (Heq : ws_stream out backlog (mailbox s4 q1)
                = (notification_message ∘ to_dict <$> (replay ++ live))).
  { rewrite Hstream, Hlive. unfold ws_stream. simpl.
    change (mailbox s3 q1) with (mailbox s2 q1). rewrite Hm2, Hm1. simpl.
    by rewrite list_fmap_compose, !fmap_app. }
  split; [done|]. split; [by eapply range_sorted_lt; [apply Hv2|]|].
  split; [by apply created_since_sorted|].
  destruct (ws_drain c q1 backlog s4 out Hc4) as (s5 & Hrun5 & Hc5 & Hm5 & _).
  exists s5. rewrite <- Heq. done.
Qed.

(** ** Concrete schedules, evaluated *)

(** The scenario of the specification: two writes, then a poll from 0. *)
Example poll_after_two_writes :
  poll_notifications 0 50 (world (after [write_A; write_B]))
  = (Return 200 (mkPollBody [to_dict n1; to_dict n2] (JInt 2)),
     world (after [write_A; write_B])).
Proof. reflexivity. Qed.


Lemma create_notification_rejects_before_effects_witness :
  status_of (create_notification ∅ "u1" "t1" (Store.Stored "A") (world boot)).1 = 400
  ∧ (create_notification ∅ "u1" "t1" (Store.Stored "A") (world boot)).2 = world boot.
Proof.
  split; [reflexivity|].
  apply (create_notification_rejects_before_effects ∅ "u1" "t1" (Store.Stored "A")
           (world boot)).
  reflexivity.
Defined.

Lemma sse_keepalive_witness :
  conns (after [SseConnect 0 None]) !! 0%nat = Some (Sse (SseLive 0 0%nat) [])
  ∧ 15 ≤ 15
  ∧ step (SseWake 0 false 15) (after [SseConnect 0 None])
    = Some (mkSystem (world (after [SseConnect 0 None]))
              (<[0%nat := Sse (SseLive 0 0%nat) ([] ++ [SseComment "ping"])]>
                 (conns (after [SseConnect 0 None])))).
Proof.
  assert (H : conns (after [SseConnect 0 None]) !! 0%nat
              = Some (Sse (SseLive 0 0%nat) [])) by reflexivity.
  split; [exact H|]. split; [lia|].
  apply (sse_keepalive (after [SseConnect 0 None]) 0%nat 0 0%nat [] 15 H). lia.
Defined.

Lemma after_run acts :
  (if run acts boot is Some _ then true else false) = true →
  run acts boot = Some (after acts).
Proof. unfold after. destruct (run acts boot); [done|discriminate]. Qed.

Lemma after_step a acts :
  (if run (acts ++ [a]) boot is Some _ then true else false) = true →
  step a (after acts) = Some (after (acts ++ [a])).
Proof.
  unfold after. assert (Happ : ∀ l s, run (l ++ [a]) s = run l s ≫= step a).
  { induction l as [|b l IH]; intros s; simpl.
    - by destruct (step a s).
    - destruct (step b s); simpl; [apply IH|done]. }
  rewrite Happ. destruct (run acts boot); simpl; [|discriminate].
  by destruct (step a s).
Qed.

(** Closes a goal about a concrete schedule. *)
Ltac evaluate :=
  first [ apply after_run; vm_compute; reflexivity
        | apply after_step; vm_compute; reflexivity
        | reflexivity ].

Lemma create_notification_contract_witness :
  ∃ created, (create_notification (body "A") "u1" "t1" (Store.Stored "A") (world boot)).1
             = Return 201 created.
Proof.
  pose proof (create_notification_contract (body "A") "u1" "t1" (Store.Stored "A")
                (world boot)) as H.
  destruct (create_notification (body "A") "u1" "t1" (Store.Stored "A") (world boot))
    as [r w'].
  destruct H as (_ & _ & _ & H & _).
  exact (H (JStr "A") (JObj ∅) "A" eq_refl eq_refl eq_refl).
Defined.


(** C7, at two worlds.  With one notification stored, a poll in a world with
    no subscriber and a poll in a world where a WebSocket has subscribed get
    the same answer, and that world differs from the first. *)
Lemma get_notifications_idempotent_witness :
  (get_notifications (Some 0) None (world (after [write_A; WsAccept 0])))
  = ((get_notifications (Some 0) None (world (after [write_A]))).1,
     world (after [write_A; WsAccept 0]))
  ∧ _subscribers (world (after [write_A; WsAccept 0]))
    ≠ _subscribers (world (after [write_A])).
Proof.
  pose proof (get_notifications_idempotent (Some 0) None (after [write_A])) as H.
  destruct (get_notifications (Some 0) None (world (after [write_A]))) as [r w'].
  destruct H as (_ & _ & _ & _ & _ & H & _). split.
  - exact (H (world (after [write_A; WsAccept 0])) eq_refl).
  - discriminate.
Defined.

(** C1, counterexample.  Nothing is stored when the client connects with
    cursor 0 and one notification is created while it is connected; the
    client is sent that notification twice. *)
Lemma websocket_delivers_twice :
  ∃ s out,
    run (ws_race ++ [WsSend 0]) boot = Some s
    ∧ Store.rows (db (world s)) = [n1]
    ∧ conns s !! 0%nat = Some (Ws (WsStreaming 0%nat []) out)
    ∧ mailbox s 0%nat = []
    ∧ out = [notification_message (to_dict n1); notification_message (to_dict n1)]
    ∧ out ≠ (notification_message ∘ to_dict
               <$> (filter (λ n, 0 < Notification.seq n) (Store.rows (db (world boot)))
                    ++ created_since boot s)).
Proof.
  exists (after (ws_race ++ [WsSend 0])),
    [notification_message (to_dict n1); notification_message (to_dict n1)].
  split_and!; try evaluate.
  intros H. apply (f_equal length) in H. vm_compute in H. discriminate.
Qed.

(** C3, counterexample.  After the backlog item with [seq = 1] has been
    sent, the queue still holds the message with [seq = 1] that was
    broadcast before the hello; the next send writes it although its [seq] is
    not above the highest [seq] already sent. *)
Lemma live_drain_sends_below_watermark :
  ∃ s s',
    run ws_race boot = Some s
    ∧ conns s !! 0%nat
      = Some (Ws (WsStreaming 0%nat []) [notification_message (to_dict n1)])
    ∧ mailbox s 0%nat = [to_dict n1]
    ∧ to_dict n1 !! "seq" = Some (JInt 1)
    ∧ step (WsSend 0) s = Some s'
    ∧ conns s' !! 0%nat
      = Some (Ws (WsStreaming 0%nat [])
                [notification_message (to_dict n1); notification_message (to_dict n1)]).
Proof.
  exists (after ws_race), (after (ws_race ++ [WsSend 0])).
  split_and!; evaluate.
Qed.

(** C4, counterexample.  A connection whose handshake times out did have a
    queue registered with the broadcaster from the accept on, and a
    notification created meanwhile was put on it. *)
Lemma handshake_timeout_had_subscription :
  ∃ s1 s2 s3,
    step (WsAccept 0) boot = Some s1
    ∧ _subscribers (world boot) = []
    ∧ _subscribers (world s1) = [0%nat]
    ∧ step write_A s1 = Some s2
    ∧ mailbox s2 0%nat = [to_dict n1]
    ∧ step (WsFirst 0 None) s2 = Some s3
    ∧ conns s3 !! 0%nat = Some (Ws (WsClosed 1008) [])
    ∧ _subscribers (world s3) = [].
Proof.
  exists (after [WsAccept 0]), (after ([WsAccept 0] ++ [write_A])),
    (after (([WsAccept 0] ++ [write_A]) ++ [WsFirst 0 None])).
  split_and!; evaluate.
Qed.

(** C10, counterexample.  With 201 notifications stored, a client whose
    hello has no [last_seq] is sent 200 messages; after that nothing is left
    to send, so one stored notification never reaches it. *)
Lemma hello_without_cursor_truncated :
  ∃ s out,
    run long_backlog boot = Some s
    ∧ length (filter (λ n, 0 < Notification.seq n) (Store.rows (db (world s)))) = 201%nat
    ∧ conns s !! 0%nat = Some (Ws (WsStreaming 0%nat []) out)
    ∧ length out = 200%nat
    ∧ mailbox s 0%nat = []
    ∧ step (WsSend 0) s = None.
Proof.
  exists (after long_backlog).
  exists (match conns (after long_backlog) !! 0%nat with
          | Some (Ws _ out) => out
          | _ => []
          end).
  split_and!.
  - evaluate.
  - vm_compute; reflexivity.
  - reflexivity.
  - vm_compute; reflexivity.
  - vm_compute; reflexivity.
  - vm_compute; reflexivity.
Qed.

(** C2, at the failing schedule.  The push-stream generator has read its
    backlog and yielded the first item without being subscribed; the
    notification written at that moment is neither in the backlog nor on the
    queue registered afterwards, and the client is sent 1 and 3 only. *)
Lemma sse_reads_backlog_before_subscribing :
  ∃ s_mid s,
    run (take 2 sse_race) boot = Some s_mid
    ∧ conns s_mid !! 0%nat = Some (Sse (SseBacklog 0 n1 []) [backlog_frame n1])
    ∧ _subscribers (world s_mid) = []
    ∧ run (drop 2 sse_race) s_mid = Some s
    ∧ Store.rows (db (world s)) = [n1; n2; n3]
    ∧ conns s !! 0%nat
      = Some (Sse (SseLive 1 0%nat)
                [backlog_frame n1; SseEvent (JInt 3) "notification" (to_dict n3)])
    ∧ mailbox s 0%nat = [].
Proof.
  exists (after (take 2 sse_race)), (after sse_race).
  split_and!; evaluate.
Qed.

Lemma live_drain_forwards_every_message_witness :
  queues (world (after [WsAccept 0; write_A])) !! 0%nat = Some [to_dict n1]
  ∧ to_dict n1 !! "seq" = Some (JInt 1)
  ∧ 0 < 15
  ∧ websocket_endpoint_send 0%nat [] (world (after [WsAccept 0; write_A]))
    = Some (WsStreaming 0%nat [], [notification_message (to_dict n1)],
            mkWorld (db (world (after [WsAccept 0; write_A])))
              (_subscribers (world (after [WsAccept 0; write_A])))
              (<[0%nat := []]> (queues (world (after [WsAccept 0; write_A])))))
  ∧ event_generator_live 0 0%nat false 0 (world (after [WsAccept 0; write_A]))
    = Some (SseLive 0 0%nat, [SseEvent (JInt 1) "notification" (to_dict n1)],
            mkWorld (db (world (after [WsAccept 0; write_A])))
              (_subscribers (world (after [WsAccept 0; write_A])))
              (<[0%nat := []]> (queues (world (after [WsAccept 0; write_A]))))).
Proof.
  assert (H1 : queues (world (after [WsAccept 0; write_A])) !! 0%nat
               = Some [to_dict n1]) by reflexivity.
  assert (H2 : to_dict n1 !! "seq" = Some (JInt 1)) by reflexivity.
  assert (H3 : 0 < 15) by lia.
  split; [exact H1|]. split; [exact H2|]. split; [exact H3|].
  exact (live_drain_forwards_every_message
           (world (after [WsAccept 0; write_A])) 0%nat (to_dict n1) [] 0 0 (JInt 1)
           H1 H2 H3).
Defined.

Lemma handshake_rejection_witness :
  valid boot
  ∧ step (WsAccept 0) boot = Some (after [WsAccept 0])
  ∧ run [write_A] (after [WsAccept 0]) = Some (after [WsAccept 0; write_A])
  ∧ conns (after [WsAccept 0; write_A]) !! 0%nat = Some (Ws (WsHandshake 0%nat) [])
  ∧ rejected None
  ∧ ∃ s3,
      step (WsFirst 0 None) (after [WsAccept 0; write_A]) = Some s3
      ∧ conns s3 !! 0%nat = Some (Ws (WsClosed 1008) [])
      ∧ (0%nat ∉ _subscribers (world boot))
      ∧ 0%nat ∈ _subscribers (world (after [WsAccept 0]))
      ∧ 0%nat ∈ _subscribers (world (after [WsAccept 0; write_A]))
      ∧ (0%nat ∉ _subscribers (world s3))
      ∧ db (world s3) = db (world (after [WsAccept 0; write_A])).
Proof.
  assert (H1 : step (WsAccept 0) boot = Some (after [WsAccept 0])) by reflexivity.
  assert (H2 : run [write_A] (after [WsAccept 0]) = Some (after [WsAccept 0; write_A]))
    by reflexivity.
  assert (H3 : conns (after [WsAccept 0; write_A]) !! 0%nat
               = Some (Ws (WsHandshake 0%nat) [])) by reflexivity.
  assert (H4 : rejected None) by exact I.
  split; [exact valid_boot|]. split; [exact H1|]. split; [exact H2|].
  split; [exact H3|]. split; [exact H4|].
  exact (handshake_rejection boot (after [WsAccept 0]) (after [WsAccept 0; write_A])
           0%nat [write_A] 0%nat [] None valid_boot H1 H2 H3 H4).
Defined.

Lemma hello_without_cursor_replays_from_zero_witness :
  valid (after [write_A; WsAccept 0])
  ∧ conns (after [write_A; WsAccept 0]) !! 0%nat = Some (Ws (WsHandshake 0%nat) [])
  ∧ 1 < 5
  ∧ hello_plain !! "type" = Some (JStr "hello")
  ∧ hello_plain !! "last_seq" = None
  ∧ step (WsFirst 0 (Some (1, Decoded (JObj hello_plain)))) (after [write_A; WsAccept 0])
    = Some (mkSystem (world (after [write_A; WsAccept 0]))
              (<[0%nat := Ws (WsStreaming 0%nat
                               (take 200
                                  (filter (λ n, 0 < Notification.seq n)
                                     (Store.rows
                                        (db (world (after [write_A; WsAccept 0]))))))) []]>
                 (conns (after [write_A; WsAccept 0])))).
Proof.
  assert (H0 : valid (after [write_A; WsAccept 0])).
  { apply (run_valid [write_A; WsAccept 0] boot); [exact valid_boot|reflexivity]. }
  assert (H1 : conns (after [write_A; WsAccept 0]) !! 0%nat
               = Some (Ws (WsHandshake 0%nat) [])) by reflexivity.
  assert (H2 : 1 < 5) by lia.
  assert (H3 : hello_plain !! "type" = Some (JStr "hello")) by reflexivity.
  assert (H4 : hello_plain !! "last_seq" = None) by reflexivity.
  split; [exact H0|]. split; [exact H1|]. split; [exact H2|].
  split; [exact H3|]. split; [exact H4|].
  exact (proj1 (hello_without_cursor_replays_from_zero
                  (after [write_A; WsAccept 0]) 0%nat 0%nat [] 1 hello_plain
                  H0 H1 H2 H3 H4)).
Defined.

Lemma websocket_delivery_witness :
  valid boot
  ∧ step (WsAccept 0) boot = Some (after [WsAccept 0])
  ∧ run [write_A] (after [WsAccept 0]) = Some (after [WsAccept 0; write_A])
  ∧ 1 < 5
  ∧ hello 0 !! "type" = Some (JStr "hello")
  ∧ hello 0 !! "last_seq" = Some (JInt 0)
  ∧ step (WsFirst 0 (Some (1, Decoded (JObj (hello 0))))) (after [WsAccept 0; write_A])
    = Some (after (take 3 ws_race))
  ∧ run [WsSend 0; write_B] (after (take 3 ws_race))
    = Some (after (ws_race ++ [write_B]))
  ∧ conns (after (ws_race ++ [write_B])) !! 0%nat
    = Some (Ws (WsStreaming 0%nat []) [notification_message (to_dict n1)])
  ∧ ws_stream [notification_message (to_dict n1)] []
      (mailbox (after (ws_race ++ [write_B])) 0%nat)
    = (notification_message ∘ to_dict
         <$> (take 200
                (filter (λ n, 0 < Notification.seq n)
                   (Store.rows (db (world (after [WsAccept 0; write_A])))))
              ++ created_since boot (after (ws_race ++ [write_B])))).
Proof.
  assert (H1 : step (WsAccept 0) boot = Some (after [WsAccept 0])) by reflexivity.
  assert (H2 : run [write_A] (after [WsAccept 0]) = Some (after [WsAccept 0; write_A]))
    by reflexivity.
  assert (H3 : 1 < 5) by lia.
  assert (H4 : hello 0 !! "type" = Some (JStr "hello")) by reflexivity.
  assert (H5 : hello 0 !! "last_seq" = Some (JInt 0)) by reflexivity.
  assert (H6 : step (WsFirst 0 (Some (1, Decoded (JObj (hello 0)))))
                 (after [WsAccept 0; write_A])
               = Some (after (take 3 ws_race))) by reflexivity.
  assert (H7 : run [WsSend 0; write_B] (after (take 3 ws_race))
               = Some (after (ws_race ++ [write_B]))) by reflexivity.
  assert (H8 : conns (after (ws_race ++ [write_B])) !! 0%nat
               = Some (Ws (WsStreaming 0%nat []) [notification_message (to_dict n1)]))
    by reflexivity.
  split; [exact valid_boot|]. split; [exact H1|]. split; [exact H2|].
  split; [exact H3|]. split; [exact H4|]. split; [exact H5|].
  split; [exact H6|]. split; [exact H7|]. split; [exact H8|].
  exact (proj1 (websocket_delivery boot (after [WsAccept 0]) (after [WsAccept 0; write_A])
                  (after (take 3 ws_race)) (after (ws_race ++ [write_B]))
                  0%nat [write_A] [WsSend 0; write_B] 1 (hello 0) 0 0%nat []
                  [notification_message (to_dict n1)]
                  valid_boot H1 H2 H3 H4 H5 H6 H7 H8)).
Defined.

(** * Further properties of the code *)

(** ** broadcaster.py *)

(** X1.  With no queue listed twice, [broadcast] puts the message once at
    the end of every subscribed queue, leaves every other queue as it was,
    and changes neither the subscriber list nor the table. *)
Theorem broadcast_once_per_subscriber (message : dict) (w : World) (q : qid) :
  NoDup (_subscribers w) →
  _subscribers (Broadcaster.broadcast message w) = _subscribers w
  ∧ db (Broadcaster.broadcast message w) = db w
  ∧ (q ∈ _subscribers w →
     queues (Broadcaster.broadcast message w) !! q
     = (λ items : list dict, items ++ [message]) <$> queues w !! q)
  ∧ (q ∉ _subscribers w →
     queues (Broadcaster.broadcast message w) !! q = queues w !! q).
Proof.
  intros Hnd. split; [apply broadcast_subscribers|]. split; [apply broadcast_db|].
  rewrite broadcast_lookup by done. split; intros Hq.
  - by rewrite decide_True.
  - by rewrite decide_False.
Qed.

Lemma broadcast_once_per_subscriber_witness :
  NoDup (_subscribers (world (after [WsAccept 0; WsAccept 1])))
  ∧ queues (Broadcaster.broadcast (to_dict n1) (world (after [WsAccept 0; WsAccept 1])))
      !! 1%nat
    = Some [to_dict n1].
Proof.
  assert (H : NoDup (_subscribers (world (after [WsAccept 0; WsAccept 1])))).
  { apply (valid_nodup _ (run_valid [WsAccept 0; WsAccept 1] boot _ valid_boot eq_refl)). }
  split; [exact H|].
  destruct (broadcast_once_per_subscriber (to_dict n1)
              (world (after [WsAccept 0; WsAccept 1])) 1%nat H) as (_ & _ & Hin & _).
  rewrite Hin; [reflexivity|].
  apply elem_of_cons. right. apply elem_of_cons. by left.
Defined.

(** X2.  Messages broadcast one after the other arrive on a subscribed
    queue in that order, behind what was already queued. *)
Theorem broadcast_keeps_order (messages : list dict) (w : World) (q : qid)
    (items : list dict) :
  NoDup (_subscribers w) →
  q ∈ _subscribers w →
  queues w !! q = Some items →
  queues (foldl (λ w message, Broadcaster.broadcast message w) w messages) !! q
  = Some (items ++ messages).
Proof.
  revert w items. induction messages as [|m messages IH]; intros w items Hnd Hin Hq.
  - simpl. by rewrite app_nil_r.
  - cbn [foldl]. rewrite (IH _ (items ++ [m])).
    + by rewrite <- app_assoc.
    + by rewrite broadcast_subscribers.
    + by rewrite broadcast_subscribers.
    + rewrite broadcast_lookup by done. rewrite decide_True by done. by rewrite Hq.
Qed.

Lemma broadcast_keeps_order_witness :
  NoDup (_subscribers (world (after [WsAccept 0; write_A])))
  ∧ 0%nat ∈ _subscribers (world (after [WsAccept 0; write_A]))
  ∧ queues (world (after [WsAccept 0; write_A])) !! 0%nat = Some [to_dict n1]
  ∧ queues (foldl (λ w message, Broadcaster.broadcast message w)
              (world (after [WsAccept 0; write_A])) [to_dict n2; to_dict n3]) !! 0%nat
    = Some ([to_dict n1] ++ [to_dict n2; to_dict n3]).
Proof.
  assert (H1 : NoDup (_subscribers (world (after [WsAccept 0; write_A])))).
  { apply (valid_nodup _ (run_valid [WsAccept 0; write_A] boot _ valid_boot eq_refl)). }
  assert (H2 : 0%nat ∈ _subscribers (world (after [WsAccept 0; write_A]))).
  { apply elem_of_cons. by left. }
  assert (H3 : queues (world (after [WsAccept 0; write_A])) !! 0%nat = Some [to_dict n1])
    by reflexivity.
  split; [exact H1|]. split; [exact H2|]. split; [exact H3|].
  exact (broadcast_keeps_order [to_dict n2; to_dict n3]
           (world (after [WsAccept 0; write_A])) 0%nat [to_dict n1] H1 H2 H3).
Defined.

(** X3.  [subscribe] hands out a queue that did not exist, empty, listed
    last, and touches no other queue; unsubscribing it again gives back the
    subscriber list there was before. *)
Theorem subscribe_then_unsubscribe (w : World) :
  (∀ q, q ∈ _subscribers w → is_Some (queues w !! q)) →
  let (queue, w') := Broadcaster.subscribe w in
  queues w !! queue = None
  ∧ queues w' !! queue = Some []
  ∧ _subscribers w' = _subscribers w ++ [queue]
  ∧ (∀ q, q ≠ queue → queues w' !! q = queues w !! q)
  ∧ db w' = db w
  ∧ _subscribers (Broadcaster.unsubscribe queue w') = _subscribers w
  ∧ db (Broadcaster.unsubscribe queue w') = db w.
Proof.
  intros Halloc. pose proof (subscribe_fresh w) as Hf.
  unfold Broadcaster.subscribe in *. simpl in *.
  set (queue := fresh (dom (queues w))) in *.
  assert (Hnot : queue ∉ _subscribers w).
  { intros Hin. apply Halloc in Hin. rewrite Hf in Hin. by destruct Hin. }
  split_and!; try done.
  - by rewrite lookup_insert_eq.
  - intros q Hne. by rewrite lookup_insert_ne.
  - unfold Broadcaster.unsubscribe. simpl.
    rewrite decide_True by (apply elem_of_app; right; by apply list_elem_of_singleton).
    simpl. by apply remove_app_fresh.
  - unfold Broadcaster.unsubscribe. simpl. by case_decide.
Qed.

Lemma subscribe_then_unsubscribe_witness :
  (∀ q, q ∈ _subscribers (world (after [WsAccept 0])) →
        is_Some (queues (world (after [WsAccept 0])) !! q))
  ∧ _subscribers
      (Broadcaster.unsubscribe (Broadcaster.subscribe (world (after [WsAccept 0]))).1
         (Broadcaster.subscribe (world (after [WsAccept 0]))).2)
    = _subscribers (world (after [WsAccept 0])).
Proof.
  assert (H : ∀ q, q ∈ _subscribers (world (after [WsAccept 0])) →
                   is_Some (queues (world (after [WsAccept 0])) !! q)).
  { apply (valid_alloc _ (run_valid [WsAccept 0] boot _ valid_boot eq_refl)). }
  split; [exact H|].
  pose proof (subscribe_then_unsubscribe (world (after [WsAccept 0])) H) as Hs.
  destruct (Broadcaster.subscribe (world (after [WsAccept 0]))) as [queue w'].
  exact (proj1 (proj2 (proj2 (proj2 (proj2 (proj2 Hs)))))).
Defined.

(** X4.  After [unsubscribe] the queue is no longer listed, the other
    subscribers are the same, a second [unsubscribe] changes nothing, and a
    later [broadcast] does not reach the queue. *)
Theorem unsubscribe_stops_delivery (queue : qid) (message : dict) (w : World) :
  NoDup (_subscribers w) →
  (queue ∉ _subscribers (Broadcaster.unsubscribe queue w))
  ∧ (∀ q, q ≠ queue →
       q ∈ _subscribers (Broadcaster.unsubscribe queue w) ↔ q ∈ _subscribers w)
  ∧ Broadcaster.unsubscribe queue (Broadcaster.unsubscribe queue w)
    = Broadcaster.unsubscribe queue w
  ∧ queues (Broadcaster.broadcast message (Broadcaster.unsubscribe queue w)) !! queue
    = queues w !! queue.
Proof.
  intros Hnd.
  assert (Hnot : queue ∉ _subscribers (Broadcaster.unsubscribe queue w)).
  { unfold Broadcaster.unsubscribe. case_decide as Hin; [|done].
    simpl. by apply not_elem_of_remove. }
  assert (Hnd' : NoDup (_subscribers (Broadcaster.unsubscribe queue w))).
  { unfold Broadcaster.unsubscribe. case_decide as Hin; [|done].
    simpl. by apply NoDup_remove. }
  split; [done|]. split_and!.
  - intros q Hne. unfold Broadcaster.unsubscribe. case_decide as Hin; [|done].
    simpl. split; [apply elem_of_remove|by apply elem_of_remove_ne].
  - unfold Broadcaster.unsubscribe at 1. by rewrite decide_False.
  - rewrite broadcast_lookup by done. rewrite decide_False by done.
    unfold Broadcaster.unsubscribe. by case_decide.
Qed.

Lemma unsubscribe_stops_delivery_witness :
  NoDup (_subscribers (world (after [WsAccept 0; WsAccept 1])))
  ∧ (0%nat ∉ _subscribers
       (Broadcaster.unsubscribe 0%nat (world (after [WsAccept 0; WsAccept 1])))).
Proof.
  assert (H : NoDup (_subscribers (world (after [WsAccept 0; WsAccept 1])))).
  { apply (valid_nodup _ (run_valid [WsAccept 0; WsAccept 1] boot _ valid_boot eq_refl)). }
  split; [exact H|].
  exact (proj1 (unsubscribe_stops_delivery 0%nat (to_dict n1)
                  (world (after [WsAccept 0; WsAccept 1])) H)).
Defined.

(** ** models.py *)

(** X5.  [to_dict] loses nothing: two notifications with the same
    dictionary are the same notification. *)
Theorem to_dict_injective (n n' : Notification.t) :
  to_dict n = to_dict n' → n = n'.
Proof.
  intros H.
  pose proof (f_equal (λ d : dict, d !! "id") H) as Hid.
  pose proof (f_equal (λ d : dict, d !! "seq") H) as Hseq.
  pose proof (f_equal (λ d : dict, d !! "type") H) as Hty.
  pose proof (f_equal (λ d : dict, d !! "payload") H) as Hp.
  pose proof (f_equal (λ d : dict, d !! "created_at") H) as Hc.
  destruct n as [i s t p c], n' as [i' s' t' p' c'].
  change (Some (JStr i) = Some (JStr i')) in Hid.
  change (Some (JInt s) = Some (JInt s')) in Hseq.
  change (Some (JStr t) = Some (JStr t')) in Hty.
  change (Some p = Some p') in Hp.
  change (Some (match c with Some iso => JStr iso | None => JNull end)
          = Some (match c' with Some iso => JStr iso | None => JNull end)) in Hc.
  simplify_eq. f_equal. by destruct c, c'; simplify_eq.
Qed.

Lemma to_dict_injective_witness :
  to_dict n1 = to_dict n1 ∧ n1 = n1.
Proof.
  split; [reflexivity|]. exact (to_dict_injective n1 n1 eq_refl).
Defined.

(** ** main.py: polling and creating together *)

Lemma filter_all {A} (P : A → Prop) `{!∀ x, Decision (P x)} (l : list A) :
  Forall P l → filter P l = l.
Proof.
  induction 1 as [|x l Hx Hl IH]; [done|].
  by rewrite filter_cons_True, IH.
Qed.

Lemma filter_none {A} (P : A → Prop) `{!∀ x, Decision (P x)} (l : list A) :
  Forall (λ x, ¬ P x) l → filter P l = [].
Proof.
  induction 1 as [|x l Hx Hl IH]; [done|].
  by rewrite filter_cons_False, IH.
Qed.

(** On a table in increasing order, the rows beyond the last row of a page
    are the rows that the page left out. *)
Lemma filter_after_page (rows : list Notification.t) (after_seq : Z) (k : nat) :
  StronglySorted seq_lt rows → (0 < k)%nat →
  filter (λ n, match last (take k (filter (λ n, after_seq < Notification.seq n) rows)) with
               | Some x => Notification.seq x
               | None => after_seq
               end < Notification.seq n) rows
  = drop k (filter (λ n, after_seq < Notification.seq n) rows).
Proof.
  intros Hs Hk.
  set (L := filter (λ n, after_seq < Notification.seq n) rows).
  assert (HL : StronglySorted seq_lt L).
  { eapply StronglySorted_sublist; [apply sublist_filter|done]. }
  destruct (last (take k L)) as [x|] eqn:Hlast.
  - assert (Hx : after_seq < Notification.seq x).
    { assert (Hin : x ∈ L).
      { eapply elem_of_sublist; [|apply (sublist_take L k)].
        by eapply last_Some_elem_of. }
      by apply list_elem_of_filter in Hin as [? _]. }
    rewrite <- (list_filter_filter_l _ (λ n, after_seq < Notification.seq n))
      by (intros; lia).
    fold L. rewrite <- (take_drop k L) at 1. rewrite filter_app.
    rewrite <- (take_drop k L) in HL.
    apply last_Some in Hlast as [l0 Hl0].
    rewrite filter_none, filter_all; [done| |].
    + apply Forall_forall. intros y Hy.
      eapply (StronglySorted_app_1_elem_of seq_lt _ _ x y) in HL; [done| |done].
      rewrite Hl0. apply elem_of_app. right. by apply list_elem_of_singleton.
    + rewrite Hl0 in HL |- *. apply StronglySorted_app_1_l in HL.
      apply Forall_app. split.
      * apply Forall_forall. intros y Hy.
        eapply (StronglySorted_app_1_elem_of seq_lt _ _ y x) in HL;
          [unfold seq_lt in HL; lia|done|by apply list_elem_of_singleton].
      * constructor; [lia|constructor].
  - apply last_None, take_nil_inv in Hlast as [->| HLnil]; [lia|].
    fold L. by rewrite HLnil, drop_nil.
Qed.

(** X6.  Pages follow one another: on a table in increasing order, a poll
    with a positive limit and then a poll from the cursor it returned give
    together the first [limit1 + limit2] notifications beyond the first
    cursor, with no gap and no repeat. *)
Theorem poll_pages_compose (after_seq limit1 limit2 : Z) (w : World) :
  store_ok (db w) → 0 < limit1 → 0 ≤ limit2 →
  ∃ (page1 page2 : list Notification.t) (cursor : Z) (next : json),
    poll_notifications after_seq limit1 w
    = (Return 200 (mkPollBody (to_dict <$> page1) (JInt cursor)), w)
    ∧ poll_notifications cursor limit2 w
      = (Return 200 (mkPollBody (to_dict <$> page2) next), w)
    ∧ page1 ++ page2
      = take (Z.to_nat limit1 + Z.to_nat limit2)
          (filter (λ n, after_seq < Notification.seq n) (Store.rows (db w))).
Proof.
  intros Hok H1 H2.
  set (L := filter (λ n, after_seq < Notification.seq n) (Store.rows (db w))).
  set (cursor := match last (take (Z.to_nat limit1) L) with
                 | Some x => Notification.seq x
                 | None => after_seq
                 end).
  assert (Hpoll : ∀ a l, 0 ≤ l →
    poll_notifications a l w
    = (Return 200
         (mkPollBody
            (to_dict <$> take (Z.to_nat l)
                           (filter (λ n, a < Notification.seq n) (Store.rows (db w))))
            (JInt (match last (take (Z.to_nat l)
                                 (filter (λ n, a < Notification.seq n)
                                    (Store.rows (db w)))) with
                   | Some n => Notification.seq n
                   | None => a
                   end))), w)).
  { intros a l Hl. unfold poll_notifications. rewrite range_sorted by done.
    cbv zeta. rewrite fmap_last.
    destruct (last (take (Z.to_nat l) _)) as [n|]; simpl; [|done].
    by rewrite to_dict_seq. }
  exists (take (Z.to_nat limit1) L), (take (Z.to_nat limit2) (drop (Z.to_nat limit1) L)),
    cursor.
  eexists. split; [by rewrite Hpoll by lia|]. split.
  - rewrite Hpoll by lia. unfold cursor, L.
    rewrite filter_after_page; [done|apply Hok|lia].
  - apply take_take_drop.
Qed.

Lemma poll_pages_compose_witness :
  store_ok (db (world (after [write_A; write_B; write_C])))
  ∧ 0 < 2 ∧ 0 ≤ 5
  ∧ ∃ (page1 page2 : list Notification.t) (cursor : Z) (next : json),
      poll_notifications 0 2 (world (after [write_A; write_B; write_C]))
      = (Return 200 (mkPollBody (to_dict <$> page1) (JInt cursor)),
         world (after [write_A; write_B; write_C]))
      ∧ poll_notifications cursor 5 (world (after [write_A; write_B; write_C]))
        = (Return 200 (mkPollBody (to_dict <$> page2) next),
           world (after [write_A; write_B; write_C]))
      ∧ page1 ++ page2
        = take (Z.to_nat 2 + Z.to_nat 5)
            (filter (λ n, 0 < Notification.seq n)
               (Store.rows (db (world (after [write_A; write_B; write_C]))))).
Proof.
  assert (H : store_ok (db (world (after [write_A; write_B; write_C])))).
  { apply (valid_store _ (run_valid [write_A; write_B; write_C] boot _ valid_boot eq_refl)). }
  assert (H1 : 0 < 2) by lia. assert (H2 : 0 ≤ 5) by lia.
  split; [exact H|]. split; [exact H1|]. split; [exact H2|].
  exact (poll_pages_compose 0 2 5 (world (after [write_A; write_B; write_C])) H H1 H2).
Defined.

(** X7.  What was just created is what the next poll sees: after a
    successful [create_notification] on a table in increasing order, polling
    from just below the [seq] of the returned dictionary gives back that
    dictionary alone, with its [seq] as cursor. *)
Theorem created_notification_is_polled (data : dict) (uuid now : string)
    (engine : Store.verdict) (w w' : World) (created : dict) (k limit : Z) :
  store_ok (db w) →
  create_notification data uuid now engine w = (Return 201 created, w') →
  created !! "seq" = Some (JInt k) →
  0 < limit →
  poll_notifications (k - 1) limit w'
  = (Return 200 (mkPollBody [created] (JInt k)), w').
Proof.
  intros [Hs Hb] Hcreate Hk Hl. unfold create_notification in Hcreate.
  destruct (data !! "type") as [ty|]; [|done].
  destruct (data !! "payload") as [p|]; [|done].
  destruct engine as [s0|drawn]; simpl in Hcreate; [|done].
  injection Hcreate as <- <-.
  rewrite to_dict_seq in Hk. simpl in Hk. injection Hk as <-.
  unfold poll_notifications, Store.range. rewrite decide_False by lia.
  rewrite broadcast_db. simpl. rewrite filter_app.
  rewrite filter_none by (eapply Forall_impl; [exact Hb|]; simpl; intros; lia).
  rewrite (filter_singleton_True _ _ []) by (simpl; lia). simpl.
  change (merge_sort Store.seq_le [?n]) with [n].
  destruct (Z.to_nat limit) as [|j] eqn:Hj; [lia|]. simpl.
  rewrite take_nil. simpl. by rewrite to_dict_seq.
Qed.

Lemma created_notification_is_polled_witness :
  store_ok (db (world boot))
  ∧ create_notification (body "A") "u1" "t1" (Store.Stored "A") (world boot)
    = (Return 201 (to_dict n1), world (after [write_A]))
  ∧ to_dict n1 !! "seq" = Some (JInt 1)
  ∧ 0 < 50
  ∧ poll_notifications (1 - 1) 50 (world (after [write_A]))
    = (Return 200 (mkPollBody [to_dict n1] (JInt 1)), world (after [write_A])).
Proof.
  assert (H1 : store_ok (db (world boot))) by apply valid_boot.
  assert (H2 : create_notification (body "A") "u1" "t1" (Store.Stored "A") (world boot)
               = (Return 201 (to_dict n1), world (after [write_A]))) by reflexivity.
  assert (H3 : to_dict n1 !! "seq" = Some (JInt 1)) by reflexivity.
  assert (H4 : 0 < 50) by lia.
  split; [exact H1|]. split; [exact H2|]. split; [exact H3|]. split; [exact H4|].
  exact (created_notification_is_polled (body "A") "u1" "t1" (Store.Stored "A")
           (world boot) (world (after [write_A])) (to_dict n1) 1 50 H1 H2 H3 H4).
Defined.

(** X8.  The dictionary that [create_notification] returns is the one it
    broadcasts: on a normal return every subscribed queue has it appended
    once and no other queue changes; on a 400 or an aborted write no queue
    changes.  The subscriber list is the same in every case. *)
Theorem create_notification_broadcasts_result (data : dict) (uuid now : string)
    (engine : Store.verdict) (w : World) :
  NoDup (_subscribers w) →
  let (r, w') := create_notification data uuid now engine w in
  _subscribers w' = _subscribers w
  ∧ match r with
    | Return _ created =>
        ∀ q, queues w' !! q
             = if decide (q ∈ _subscribers w)
               then (λ items : list dict, items ++ [created]) <$> queues w !! q
               else queues w !! q
    | _ => queues w' = queues w
    end.
Proof.
  intros Hnd. unfold create_notification.
  destruct (data !! "type") as [ty|]; [|done].
  destruct (data !! "payload") as [p|]; [|done].
  destruct engine as [s0|drawn]; simpl; [|done].
  rewrite broadcast_subscribers. split; [done|].
  intros q. by rewrite broadcast_lookup.
Qed.

Lemma create_notification_broadcasts_result_witness :
  NoDup (_subscribers (world (after [WsAccept 0])))
  ∧ queues (create_notification (body "A") "u1" "t1" (Store.Stored "A") (world (after [WsAccept 0]))).2
      !! 0%nat
    = Some [to_dict n1].
Proof.
  assert (H : NoDup (_subscribers (world (after [WsAccept 0])))).
  { apply (valid_nodup _ (run_valid [WsAccept 0] boot _ valid_boot eq_refl)). }
  split; [exact H|].
  pose proof (create_notification_broadcasts_result (body "A") "u1" "t1"
                (Store.Stored "A") (world (after [WsAccept 0])) H) as Hc.
  change (create_notification (body "A") "u1" "t1" (Store.Stored "A") (world (after [WsAccept 0])))
    with (Return 201 (to_dict n1), world (after [WsAccept 0; write_A])) in Hc.
  destruct Hc as [_ Hq].
  exact (eq_trans (Hq 0%nat) eq_refl).
Defined.

(** X9.  Bounds of the polling endpoint.  A limit above 200 is answered 422
    without reading the table.  A negative limit passes the framework and
    the query fails.  Any other limit (50 when none is given) is answered
    200 with exactly [limit] items, or all the stored notifications beyond
    the cursor (0 when none is given) when there are fewer, hence never more
    than 200 items, each the [to_dict] of a stored notification beyond the
    cursor.  In every case the world is left as it was. *)
Theorem get_notifications_bounds (after_seq limit : option Z) (w : World) :
  (200 < default 50 limit →
     get_notifications after_seq limit w = (HTTPException 422 "limit", w))
  ∧ (default 50 limit < 0 →
     get_notifications after_seq limit w = (Raise "StoreError", w))
  ∧ (0 ≤ default 50 limit ≤ 200 →
     ∃ found,
       get_notifications after_seq limit w = (Return 200 found, w)
       ∧ length (items found)
         = Nat.min (Z.to_nat (default 50%Z limit))
             (length (filter (λ n, default 0 after_seq < Notification.seq n)
                        (Store.rows (db w))))
       ∧ (length (items found) ≤ 200)%nat
       ∧ Forall (λ d, ∃ n, n ∈ Store.rows (db w)
                           ∧ default 0 after_seq < Notification.seq n
                           ∧ d = to_dict n) (items found)).
Proof.
  unfold get_notifications. split_and!.
  - intros H. by rewrite decide_False by lia.
  - intros H. rewrite decide_True by lia.
    unfold poll_notifications, Store.range. by rewrite decide_True by lia.
  - intros [H0 H200]. rewrite decide_True by lia.
    unfold poll_notifications. rewrite range_take by done.
    cbv zeta. rewrite fmap_last.
    set (L := merge_sort Store.seq_le
                (filter (λ n, default 0 after_seq < Notification.seq n)
                   (Store.rows (db w)))).
    set (k := Z.to_nat (default 50 limit)).
    assert (Hlen : length (to_dict <$> take k L)
                   = Nat.min k (length (filter (λ n, default 0 after_seq < Notification.seq n)
                                          (Store.rows (db w))))).
    { rewrite length_fmap, length_take. f_equal. unfold L.
      apply Permutation_length, merge_sort_Permutation. }
    assert (Hall : Forall (λ d, ∃ n, n ∈ Store.rows (db w)
                                     ∧ default 0 after_seq < Notification.seq n
                                     ∧ d = to_dict n)
                     (to_dict <$> take k L)).
    { apply Forall_fmap, Forall_forall. intros n Hn. exists n.
      assert (Hin : n ∈ L) by (eapply elem_of_sublist; [done|apply sublist_take]).
      unfold L in Hin. rewrite merge_sort_Permutation in Hin.
      apply list_elem_of_filter in Hin as [? ?]. done. }
    assert (Hcap : (length (to_dict <$> take k L) ≤ 200)%nat).
    { rewrite Hlen. unfold k. lia. }
    destruct (last (take k L)) as [n|]; simpl.
    + rewrite to_dict_seq. simpl. eexists. split; [done|]. by split_and!.
    + eexists. split; [done|]. by split_and!.
Qed.

Lemma get_notifications_bounds_witness :
  get_notifications None (Some 1000) (world (after [write_A]))
  = (HTTPException 422 "limit", world (after [write_A]))
  ∧ ∃ found,
      get_notifications None (Some 1) (world (after [write_A; write_B]))
      = (Return 200 found, world (after [write_A; write_B]))
      ∧ length (items found) = 1%nat.
Proof.
  split.
  - destruct (get_notifications_bounds None (Some 1000) (world (after [write_A])))
      as (H & _ & _).
    apply H. simpl. lia.
  - destruct (get_notifications_bounds None (Some 1) (world (after [write_A; write_B])))
      as (_ & _ & H).
    destruct H as (found & Hr & Hn & _); [simpl; lia|].
    exists found. split; [exact Hr|]. rewrite Hn. reflexivity.
Defined.

(** ** The process as a whole *)

(** X10.  In every state the process can reach from start-up: no queue is
    subscribed twice, every subscribed queue exists, every connection that
    holds a queue has it subscribed, no two connections hold the same queue,
    nothing has been written to a WebSocket still waiting for its hello, and
    the table is in strictly increasing [seq] order below the sequence. *)
Theorem reachable_invariants (acts : list action) (s : System) :
  run acts boot = Some s →
  NoDup (_subscribers (world s))
  ∧ (∀ q, q ∈ _subscribers (world s) → is_Some (queues (world s) !! q))
  ∧ (∀ c k q, conns s !! c = Some k → conn_queue k = Some q →
       q ∈ _subscribers (world s))
  ∧ (∀ c1 c2 k1 k2 q, conns s !! c1 = Some k1 → conns s !! c2 = Some k2 →
       conn_queue k1 = Some q → conn_queue k2 = Some q → c1 = c2)
  ∧ (∀ c q out, conns s !! c = Some (Ws (WsHandshake q) out) → out = [])
  ∧ StronglySorted seq_lt (Store.rows (db (world s)))
  ∧ Forall (λ n, Notification.seq n < Store.sequence (db (world s)))
      (Store.rows (db (world s))).
Proof.
  intros Hrun. destruct (run_valid acts boot s valid_boot Hrun) as [H1 H2 H3 H4 H5 [H6 H7]].
  split_and!; try done. intros c q out Hc. apply (H5 c _ Hc).
Qed.

Lemma reachable_invariants_witness :
  run (ws_race ++ [write_B]) boot = Some (after (ws_race ++ [write_B]))
  ∧ NoDup (_subscribers (world (after (ws_race ++ [write_B])))).
Proof.
  assert (H : run (ws_race ++ [write_B]) boot = Some (after (ws_race ++ [write_B])))
    by reflexivity.
  split; [exact H|].
  exact (proj1 (reachable_invariants (ws_race ++ [write_B])
                  (after (ws_race ++ [write_B])) H)).
Defined.

(** How a step changes the connections and the subscriber list. *)
Lemma step_shape a s s' :
  valid s → step a s = Some s' →
  (conns s' = conns s ∧ _subscribers (world s') = _subscribers (world s))
  ∨ ∃ c k', conns s' = <[c := k']> (conns s)
      ∧ ((_subscribers (world s') = _subscribers (world s)
          ∧ (conns s !! c) ≫= conn_queue = conn_queue k')
         ∨ (∃ q, _subscribers (world s') = _subscribers (world s) ++ [q]
                 ∧ conn_queue k' = Some q
                 ∧ (conns s !! c) ≫= conn_queue = None)
         ∨ (∃ q, (conns s !! c) ≫= conn_queue = Some q
                 ∧ conn_queue k' = None
                 ∧ _subscribers (world s')
                   = Broadcaster.remove q (_subscribers (world s)))).
Proof.
  intros Hv.
  assert (Hunsub : ∀ c k q w, conns s !! c = Some k → conn_queue k = Some q →
            _subscribers w = _subscribers (world s) →
            _subscribers (Broadcaster.unsubscribe q w)
            = Broadcaster.remove q (_subscribers (world s))).
  { intros c k q w Hc Hq Hw. unfold Broadcaster.unsubscribe.
    rewrite decide_True by (rewrite Hw; eapply valid_held; eauto).
    simpl. by rewrite Hw. }
  destruct a as [data uuid now engine|after limit|c lei|c|c disc idle|c|c|c arr|c|c]; simpl.
  - intros [= <-]. left. split; [done|]. simpl.
    destruct (create_notification_effect data uuid now engine (world s)) as (_ & _ & H & _);
      [apply Hv|done].
  - intros [= <-]. left. by rewrite get_notifications_world.
  - destruct (conns s !! c) eqn:Hc; [done|].
    unfold event_generator_start.
    destruct (range_200 (or_zero lei) (db (world s))) as [backlog ->].
    destruct backlog as [|item rest]; simpl; intros [= <-]; right;
      eexists c, _; (split; [done|]); simpl; rewrite Hc.
    + right. left. eauto.
    + left. done.
  - destruct (conns s !! c) as [[[cursor item rest| |] out|]|] eqn:Hc; try done.
    unfold event_generator_resume.
    destruct rest as [|item' rest']; simpl; intros [= <-]; right;
      eexists c, _; (split; [done|]); simpl; rewrite Hc.
    + right. left. eauto.
    + left. done.
  - destruct (conns s !! c) as [[[|cursor queue|] out|]|] eqn:Hc; try done.
    destruct (event_generator_live _ _ _ _ _) as [[[st frames] w']|] eqn:E; [|done].
    intros [= <-]. right. eexists c, _. split; [done|]. simpl. rewrite Hc. simpl.
    unfold event_generator_live, wait_for in E.
    repeat case_match; simplify_eq; simpl;
      first [ by left
            | right; right; eexists; split; [done|]; split; [done|];
              by eapply Hunsub ].
  - destruct (conns s !! c) as [[[cursor item rest|cursor queue|] out|]|] eqn:Hc;
      try done; intros [= <-]; right; eexists c, _; (split; [done|]);
      simpl; rewrite Hc; simpl.
    + by left.
    + right; right. eexists. split; [done|]. split; [done|]. by eapply Hunsub.
  - destruct (conns s !! c) eqn:Hc; [done|].
    intros [= <-]. right. eexists c, _. split; [done|]. simpl. rewrite Hc.
    right. left. eauto.
  - destruct (conns s !! c) as [[|[queue| | | |] out]|] eqn:Hc; try done.
    destruct (websocket_endpoint_hello _ _ _) as [[st w']|] eqn:E; [|done].
    intros [= <-]. right. eexists c, _. split; [done|]. simpl. rewrite Hc. simpl.
    apply websocket_endpoint_hello_world in E as [[-> [b ->]]|[-> Hst]].
    + by left.
    + right; right. eexists. split; [done|].
      split; [by destruct Hst as [->|[x ->]]|]. by eapply Hunsub.
  - destruct (conns s !! c) as [[|[|queue backlog| | |] out]|] eqn:Hc; try done.
    destruct (websocket_endpoint_send _ _ _) as [[[st frames] w']|] eqn:E; [|done].
    intros [= <-]. right. eexists c, _. split; [done|]. simpl. rewrite Hc. simpl.
    unfold websocket_endpoint_send in E. left.
    repeat case_match; simplify_eq; done.
  - destruct (conns s !! c) as [[|[|queue backlog| | |] out]|] eqn:Hc; try done.
    intros [= <-]. right. eexists c, _. split; [done|]. simpl. rewrite Hc. simpl.
    right; right. eexists. split; [done|]. split; [done|]. by eapply Hunsub.
Qed.

Lemma step_no_leak a s s' :
  valid s → no_leak s → step a s = Some s' → no_leak s'.
Proof.
  intros Hv Hn Hstep.
  destruct (step_shape a s s' Hv Hstep)
    as [[Hc Hs]|(c & k' & Hc & [[Hs Hq]|[(q0 & Hs & Hq & Hnone)|(q0 & Hold & Hq & Hs)]])];
    intros q Hin; rewrite Hs in Hin; rewrite Hc.
  - by apply Hn.
  - destruct (Hn q Hin) as (c0 & k0 & Hc0 & Hq0).
    destruct (decide (c0 = c)) as [->|Hne].
    + exists c, k'. rewrite lookup_insert_eq. split; [done|].
      rewrite Hc0 in Hq. simpl in Hq. congruence.
    + exists c0, k0. by rewrite lookup_insert_ne.
  - apply elem_of_app in Hin as [Hin| ->%list_elem_of_singleton].
    + destruct (Hn q Hin) as (c0 & k0 & Hc0 & Hq0).
      exists c0, k0. rewrite lookup_insert_ne; [done|].
      intros ->. rewrite Hc0 in Hnone. simpl in Hnone. congruence.
    + exists c, k'. by rewrite lookup_insert_eq.
  - assert (Hne : q ≠ q0).
    { intros ->. by eapply not_elem_of_remove, Hin; apply Hv. }
    apply elem_of_remove in Hin.
    destruct (Hn q Hin) as (c0 & k0 & Hc0 & Hq0).
    exists c0, k0. rewrite lookup_insert_ne; [done|].
    intros ->. rewrite Hc0 in Hold. simpl in Hold. congruence.
Qed.

Lemma run_no_leak acts s s' :
  valid s → no_leak s → run acts s = Some s' → no_leak s'.
Proof.
  revert s. induction acts as [|a acts IH]; simpl; intros s Hv Hn.
  - by intros [= <-].
  - destruct (step a s) as [s1|] eqn:E; [|done]. simpl.
    apply IH; [by eapply step_valid|by eapply step_no_leak].
Qed.

(** X11.  No subscription outlives its connection: in every state the
    process can reach, each queue in the broadcaster's list is held by a
    connection whose handler is still running. *)
Theorem no_subscription_leak (acts : list action) (s : System) (q : qid) :
  run acts boot = Some s →
  q ∈ _subscribers (world s) →
  ∃ c k, conns s !! c = Some k ∧ conn_queue k = Some q ∧ ¬ ended k.
Proof.
  intros Hrun Hin.
  assert (Hn : no_leak s).
  { eapply run_no_leak; [apply valid_boot| |exact Hrun]. by intros ? ?%elem_of_nil. }
  destruct (Hn q Hin) as (c & k & Hc & Hq). exists c, k. split; [done|]. split; [done|].
  destruct k as [[]|[]]; simpl in *; simplify_eq; tauto.
Qed.

Lemma no_subscription_leak_witness :
  run [WsAccept 0; WsAccept 1; WsFirst 0 None] boot
  = Some (after [WsAccept 0; WsAccept 1; WsFirst 0 None])
  ∧ 1%nat ∈ _subscribers (world (after [WsAccept 0; WsAccept 1; WsFirst 0 None]))
  ∧ ∃ c k, conns (after [WsAccept 0; WsAccept 1; WsFirst 0 None]) !! c = Some k
           ∧ conn_queue k = Some 1%nat ∧ ¬ ended k.
Proof.
  assert (H1 : run [WsAccept 0; WsAccept 1; WsFirst 0 None] boot
               = Some (after [WsAccept 0; WsAccept 1; WsFirst 0 None])) by reflexivity.
  assert (H2 : 1%nat ∈ _subscribers
                 (world (after [WsAccept 0; WsAccept 1; WsFirst 0 None]))).
  { apply elem_of_cons. by left. }
  split; [exact H1|]. split; [exact H2|].
  exact (no_subscription_leak [WsAccept 0; WsAccept 1; WsFirst 0 None]
           (after [WsAccept 0; WsAccept 1; WsFirst 0 None]) 1%nat H1 H2).
Defined.

(** ** The push stream against the table *)

Lemma sse_events_app out frames :
  sse_events (out ++ frames) = sse_events out ++ sse_events frames.
Proof. apply omap_app. Qed.

Lemma sublist_app_keep {A} (k l new : list A) :
  k `sublist_of` l → k ++ new `sublist_of` l ++ new.
Proof. intros H. by apply sublist_app. Qed.

(** A step of somebody else keeps [sse_ok]. *)
Lemma sse_ok_other a s s' c k :
  valid s → actor a ≠ Some c → step a s = Some s' →
  conns s !! c = Some k → sse_ok s k → sse_ok s' k.
Proof.
  intros Hv Ha Hstep Hc Hok.
  pose proof (step_rows a s s' Hv Hstep) as Hrows.
  destruct k as [st out|]; [|done].
  destruct Hok as (sent & Hev & Hall & Hst). exists sent.
  split; [done|]. split; [done|].
  destruct st as [cursor item rest|cursor queue|].
  - destruct Hst as [Hsent Hsub]. split; [done|].
    rewrite Hrows. by apply sublist_inserts_r.
  - destruct Hst as (queued & Hq & Hsub).
    exists (queued ++ created_since s s'). split.
    + rewrite (step_mailbox a s s' c _ queue Hv Hc eq_refl Ha Hstep).
      by rewrite Hq, fmap_app.
    + rewrite Hrows, app_assoc. by apply sublist_app_keep.
  - rewrite Hrows. by apply sublist_inserts_r.
Qed.

(** The backlog loop keeps it, from its start and at every resumption. *)
Lemma event_generator_loop_sse_ok s c cursor backlog out sent :
  sse_events out = backlog_frame <$> sent →
  Forall (λ f, f = SseComment "ping" ∨ ∃ n, f = backlog_frame n) out →
  (sent ++ backlog) `sublist_of` Store.rows (db (world s)) →
  sse_ok (mkSystem (event_generator_loop cursor backlog (world s)).2
            (<[c := Sse (event_generator_loop cursor backlog (world s)).1.1
                       (out ++ (event_generator_loop cursor backlog (world s)).1.2)]>
               (conns s)))
    (Sse (event_generator_loop cursor backlog (world s)).1.1
       (out ++ (event_generator_loop cursor backlog (world s)).1.2)).
Proof.
  intros Hev Hall Hsub. destruct backlog as [|item rest]; simpl.
  - exists sent. rewrite app_nil_r. split; [done|]. split; [done|].
    exists []. split.
    + unfold mailbox. simpl. by rewrite lookup_insert_eq.
    + done.
  - exists (sent ++ [item]). split_and!.
    + by rewrite sse_events_app, Hev, fmap_app.
    + apply Forall_app. split; [done|]. constructor; [|constructor]. right. eauto.
    + eauto.
    + by rewrite <- app_assoc.
Qed.

Lemma step_sse_ok a s s' :
  valid s →
  (∀ c k, conns s !! c = Some k → sse_ok s k) →
  step a s = Some s' →
  ∀ c k, conns s' !! c = Some k → sse_ok s' k.
Proof.
  intros Hv Hall Hstep c k Hc'.
  destruct (decide (actor a = Some c)) as [Ha|Ha]; last first.
  { rewrite (step_other_conn a s s' c Ha Hstep) in Hc'.
    eapply sse_ok_other; eauto. }
  destruct a as [data uuid now engine|after limit|c0 lei|c0|c0 disc idle|c0|c0|c0 arr|c0|c0];
    simpl in Ha; simplify_eq; simpl in Hstep.
  - destruct (conns s !! c) eqn:Hc; [done|].
    unfold event_generator_start in Hstep.
    pose proof (range_sorted (or_zero lei) 200 (db (world s)) (valid_store s Hv)) as Hr.
    rewrite Hr in Hstep by lia.
    match type of Hstep with context [event_generator_loop ?cur ?b _] =>
      pose proof (event_generator_loop_sse_ok s c cur b [] [] eq_refl (Forall_nil_2 _)) as Hl;
      destruct (event_generator_loop cur b (world s)) as [[st frames] w'] end.
    simplify_eq. simpl in Hc'. rewrite lookup_insert_eq in Hc'. simplify_eq.
    apply Hl. simpl. etrans; [apply sublist_take|apply sublist_filter].
  - destruct (conns s !! c) as [[[cursor item rest| |] out|]|] eqn:Hc; try done.
    destruct (Hall c _ Hc) as (sent & Hev & Hfr & _ & Hsub).
    unfold event_generator_resume in Hstep.
    pose proof (event_generator_loop_sse_ok s c (Notification.seq item) rest out sent
                  Hev Hfr Hsub) as Hl.
    destruct (event_generator_loop _ _ _) as [[st frames] w'].
    simplify_eq. simpl in Hc'. rewrite lookup_insert_eq in Hc'. by simplify_eq.
  - destruct (conns s !! c) as [[[|cursor queue|] out|]|] eqn:Hc; try done.
    destruct (Hall c _ Hc) as (sent & Hev & Hfr & queued & Hq & Hsub).
    destruct (event_generator_live _ _ _ _ _) as [[[st frames] w']|] eqn:E; [|done].
    simpl in Hstep. simplify_eq. simpl in Hc'. rewrite lookup_insert_eq in Hc'.
    simplify_eq. unfold event_generator_live, wait_for in E. unfold mailbox in Hq.
    assert (Hdone : sent `sublist_of` Store.rows (db (world s))).
    { etrans; [|exact Hsub]. by apply sublist_inserts_r. }
    assert (Hping : Forall (λ f, f = SseComment "ping" ∨ ∃ n, f = backlog_frame n)
                      (out ++ [SseComment "ping"])).
    { apply Forall_app. split; [done|]. constructor; [by left|constructor]. }
    destruct disc.
    { simplify_eq. exists sent. rewrite app_nil_r. split; [done|]. split; [done|].
      simpl. by rewrite (proj1 (untouched_unsubscribe queue queue (world s))). }
    destruct (default [] (queues (world s) !! queue)) as [|msg rest] eqn:Hmb.
    { case_decide; simplify_eq. exists sent.
      rewrite sse_events_app, app_nil_r. split; [done|]. split; [done|].
      exists queued. unfold mailbox. simpl. by rewrite Hmb. }
    destruct queued as [|m queued]; [done|]. simpl in Hq. injection Hq as -> ->.
    case_decide; simplify_eq.
    + rewrite to_dict_seq in E. simplify_eq. exists (sent ++ [m]). split_and!.
      * by rewrite sse_events_app, Hev, fmap_app.
      * apply Forall_app. split; [done|]. constructor; [|constructor]. right. eauto.
      * exists queued. unfold mailbox. simpl. rewrite lookup_insert_eq.
        split; [done|]. by rewrite <- app_assoc.
    + exists sent. rewrite sse_events_app, app_nil_r. split; [done|]. split; [done|].
      exists (m :: queued). unfold mailbox. simpl. by rewrite Hmb.
  - destruct (conns s !! c) as [[[cursor item rest|cursor queue|] out|]|] eqn:Hc;
      try done; simplify_eq; simpl in Hc'; rewrite lookup_insert_eq in Hc'; simplify_eq.
    + destruct (Hall c _ Hc) as (sent & Hev & Hfr & _ & Hsub).
      exists sent. split; [done|]. split; [done|]. simpl.
      etrans; [|exact Hsub]. by apply sublist_inserts_r.
    + destruct (Hall c _ Hc) as (sent & Hev & Hfr & queued & Hq & Hsub).
      exists sent. split; [done|]. split; [done|]. simpl.
      rewrite (proj1 (untouched_unsubscribe queue queue (world s))).
      etrans; [|exact Hsub]. by apply sublist_inserts_r.
  - destruct (conns s !! c) eqn:Hc; [done|]. simplify_eq.
    simpl in Hc'. rewrite lookup_insert_eq in Hc'. by simplify_eq.
  - destruct (conns s !! c) as [[|[queue| | | |] out]|] eqn:Hc; try done.
    destruct (websocket_endpoint_hello _ _ _) as [[st w']|]; [|done].
    simpl in Hstep. simplify_eq. simpl in Hc'. rewrite lookup_insert_eq in Hc'.
    by simplify_eq.
  - destruct (conns s !! c) as [[|[|queue backlog| | |] out]|] eqn:Hc; try done.
    destruct (websocket_endpoint_send _ _ _) as [[[st frames] w']|]; [|done].
    simpl in Hstep. simplify_eq. simpl in Hc'. rewrite lookup_insert_eq in Hc'.
    by simplify_eq.
  - destruct (conns s !! c) as [[|[|queue backlog| | |] out]|] eqn:Hc; try done.
    simpl in Hstep. simplify_eq. simpl in Hc'. rewrite lookup_insert_eq in Hc'.
    by simplify_eq.
Qed.

Lemma run_sse_ok acts s s' :
  valid s →
  (∀ c k, conns s !! c = Some k → sse_ok s k) →
  run acts s = Some s' →
  ∀ c k, conns s' !! c = Some k → sse_ok s' k.
Proof.
  revert s. induction acts as [|a acts IH]; simpl; intros s Hv Hall.
  - by intros [= <-].
  - destruct (step a s) as [s1|] eqn:E; [|done]. simpl.
    apply IH; [by eapply step_valid|by eapply step_sse_ok].
Qed.

(** X12.  What a push-stream client is sent is in table order and free of
    repeats: on any connection in any reachable state, the frames written
    are [: ping] comments and notification frames, and the notification
    frames are the frames of a sublist of the table, hence in strictly
    increasing [seq] order. *)
Theorem sse_stream_in_table_order (acts : list action) (s : System) (c : nat)
    (st : sse_state) (out : list sse_frame) :
  run acts boot = Some s →
  conns s !! c = Some (Sse st out) →
  ∃ sent : list Notification.t,
    sse_events out = backlog_frame <$> sent
    ∧ sent `sublist_of` Store.rows (db (world s))
    ∧ StronglySorted seq_lt sent
    ∧ Forall (λ f, f = SseComment "ping" ∨ ∃ n, f = backlog_frame n) out.
Proof.
  intros Hrun Hc.
  pose proof (run_valid acts boot s valid_boot Hrun) as Hv.
  assert (Hok : sse_ok s (Sse st out)).
  { eapply (run_sse_ok acts boot s valid_boot); [|exact Hrun|exact Hc].
    intros c0 k0 H0. simpl in H0. by rewrite lookup_empty in H0. }
  destruct Hok as (sent & Hev & Hfr & Hst). exists sent.
  assert (Hsub : sent `sublist_of` Store.rows (db (world s))).
  { destruct st as [cursor item rest|cursor queue|].
    - destruct Hst as [_ Hsub]. etrans; [|exact Hsub]. by apply sublist_inserts_r.
    - destruct Hst as (queued & _ & Hsub). etrans; [|exact Hsub].
      by apply sublist_inserts_r.
    - done. }
  split_and!; try done.
  eapply StronglySorted_sublist; [exact Hsub|apply Hv].
Qed.

Lemma sse_stream_in_table_order_witness :
  run (sse_race ++ [SseWake 0 false 15]) boot
  = Some (after (sse_race ++ [SseWake 0 false 15]))
  ∧ conns (after (sse_race ++ [SseWake 0 false 15])) !! 0%nat
    = Some (Sse (SseLive 1 0%nat)
              [backlog_frame n1; backlog_frame n3; SseComment "ping"])
  ∧ ∃ sent : list Notification.t,
      sse_events [backlog_frame n1; backlog_frame n3; SseComment "ping"]
      = backlog_frame <$> sent
      ∧ sent `sublist_of`
          Store.rows (db (world (after (sse_race ++ [SseWake 0 false 15]))))
      ∧ StronglySorted seq_lt sent
      ∧ Forall (λ f, f = SseComment "ping" ∨ ∃ n, f = backlog_frame n)
          [backlog_frame n1; backlog_frame n3; SseComment "ping"].
Proof.
  assert (H1 : run (sse_race ++ [SseWake 0 false 15]) boot
               = Some (after (sse_race ++ [SseWake 0 false 15]))) by reflexivity.
  assert (H2 : conns (after (sse_race ++ [SseWake 0 false 15])) !! 0%nat
               = Some (Sse (SseLive 1 0%nat)
                         [backlog_frame n1; backlog_frame n3; SseComment "ping"]))
    by reflexivity.
  split; [exact H1|]. split; [exact H2|].
  exact (sse_stream_in_table_order (sse_race ++ [SseWake 0 false 15])
           (after (sse_race ++ [SseWake 0 false 15])) 0%nat (SseLive 1 0%nat)
           [backlog_frame n1; backlog_frame n3; SseComment "ping"] H1 H2).
Defined.

(** ** The push stream, phase by phase *)

Lemma step_sse_phase a s s' c st out :
  step a s = Some s' →
  conns s !! c = Some (Sse st out) →
  ∃ st' out', conns s' !! c = Some (Sse st' out') ∧ (sse_phase st ≤ sse_phase st')%nat.
Proof.
  intros H Hc. destruct (decide (actor a = Some c)) as [Ha|Ha].
  - destruct a; simpl in Ha; simplify_eq; simpl in H; rewrite Hc in H; try done.
    + destruct st as [cursor item rest| |]; try done.
      unfold event_generator_resume in H.
      destruct rest; simpl in H; simplify_eq; simpl; rewrite lookup_insert_eq;
        eexists _, _; (split; [done|]); simpl; lia.
    + destruct st as [|cursor queue|]; try done.
      destruct (event_generator_live _ _ _ _ _) as [[[st' frames] w']|] eqn:E; [|done].
      simpl in H. simplify_eq. simpl. rewrite lookup_insert_eq.
      eexists _, _. split; [done|].
      unfold event_generator_live, wait_for in E.
      repeat case_match; simplify_eq; simpl; lia.
    + destruct st; try done; simplify_eq; simpl; rewrite lookup_insert_eq;
        eexists _, _; (split; [done|]); simpl; lia.
  - rewrite (step_other_conn a s s' c) by done. eauto.
Qed.

Lemma run_sse_phase acts s s' c st out :
  run acts s = Some s' →
  conns s !! c = Some (Sse st out) →
  ∃ st' out', conns s' !! c = Some (Sse st' out') ∧ (sse_phase st ≤ sse_phase st')%nat.
Proof.
  revert s st out. induction acts as [|a acts IH]; simpl; intros s st out.
  - intros [= <-] Hc. eauto.
  - destruct (step a s) as [s1|] eqn:E; [|done]. simpl. intros Hrun Hc.
    destruct (step_sse_phase _ _ _ _ _ _ E Hc) as (st1 & out1 & Hc1 & Hle1).
    destruct (IH _ _ _ Hrun Hc1) as (st' & out' & Hc' & Hle').
    eexists _, _. split; [done|]. lia.
Qed.

(** One step while the backlog is being replayed. *)
Lemma sse_backlog_step a s s' c cursor item rest out cursor' item' rest' out' :
  step a s = Some s' →
  conns s !! c = Some (Sse (SseBacklog cursor item rest) out) →
  conns s' !! c = Some (Sse (SseBacklog cursor' item' rest') out') →
  out' ++ (backlog_frame <$> rest') = out ++ (backlog_frame <$> rest)
  ∧ (last out = Some (backlog_frame item) → last out' = Some (backlog_frame item')).
Proof.
  intros H Hc Hc'. destruct (decide (actor a = Some c)) as [Ha|Ha].
  - destruct a; simpl in Ha; simplify_eq; simpl in H; rewrite Hc in H; try done.
    + unfold event_generator_resume in H.
      destruct rest as [|x rest0]; simpl in H; simplify_eq;
        simpl in Hc'; rewrite lookup_insert_eq in Hc'; simplify_eq.
      split; [by rewrite <- app_assoc|]. intros _. apply last_snoc.
    + simplify_eq. simpl in Hc'. by rewrite lookup_insert_eq in Hc'.
  - rewrite (step_other_conn a s s' c) in Hc' by done. by simplify_eq.
Qed.

Lemma run_sse_backlog acts s s' c cursor item rest out cursor' item' rest' out' :
  run acts s = Some s' →
  conns s !! c = Some (Sse (SseBacklog cursor item rest) out) →
  conns s' !! c = Some (Sse (SseBacklog cursor' item' rest') out') →
  out' ++ (backlog_frame <$> rest') = out ++ (backlog_frame <$> rest)
  ∧ (last out = Some (backlog_frame item) → last out' = Some (backlog_frame item')).
Proof.
  revert s cursor item rest out.
  induction acts as [|a acts IH]; simpl; intros s cursor item rest out.
  - intros [= <-] Hc Hc'. by simplify_eq.
  - destruct (step a s) as [s1|] eqn:E; [|done]. simpl. intros Hrun Hc Hc'.
    destruct (step_sse_phase _ _ _ _ _ _ E Hc) as (st1 & out1 & Hc1 & _).
    destruct (run_sse_phase _ _ _ _ _ _ Hrun Hc1) as (st2 & out2 & Hc2 & Hle).
    rewrite Hc' in Hc2. simplify_eq. destruct st1; simpl in Hle; try lia.
    destruct (sse_backlog_step _ _ _ _ _ _ _ _ _ _ _ _ E Hc Hc1) as [H1 H1'].
    destruct (IH _ _ _ _ _ Hrun Hc1 Hc') as [H2 H2'].
    split; [congruence|auto].
Qed.

(** X13.  The backlog replayed to a push-stream client is the table as it
    was when the client connected: while the replay lasts, whatever is
    written meanwhile, the frames already sent followed by the frames still
    to send are the frames of the first 200 notifications beyond the cursor
    in the table of that moment, and the last frame sent is that of the item
    the generator is suspended on. *)
Theorem sse_backlog_is_a_snapshot (s0 s1 s2 : System) (c : nat)
    (last_event_id : option Z) (acts : list action) (cursor : Z)
    (item : Notification.t) (rest : list Notification.t) (out : list sse_frame) :
  valid s0 →
  step (SseConnect c last_event_id) s0 = Some s1 →
  run acts s1 = Some s2 →
  conns s2 !! c = Some (Sse (SseBacklog cursor item rest) out) →
  out ++ (backlog_frame <$> rest)
  = (backlog_frame
       <$> take 200 (filter (λ n, or_zero last_event_id < Notification.seq n)
                       (Store.rows (db (world s0)))))
  ∧ last out = Some (backlog_frame item)
  ∧ _subscribers (world s1) = _subscribers (world s0).
Proof.
  intros Hv Hconn Hrun Hc2. simpl in Hconn.
  destruct (conns s0 !! c) eqn:Hc0; [done|].
  unfold event_generator_start in Hconn.
  rewrite (range_sorted _ _ _ (valid_store s0 Hv)) in Hconn by lia.
  change (Z.to_nat 200) with 200%nat in Hconn.
  destruct (take 200 _) as [|first others] eqn:Hreplay; simpl in Hconn; simplify_eq.
  - assert (Hc1 : conns
                    (mkSystem (Broadcaster.subscribe (world s0)).2
                       (<[c := Sse (SseLive (or_zero last_event_id)
                                      (Broadcaster.subscribe (world s0)).1) []]>
                          (conns s0))) !! c
                  = Some (Sse (SseLive (or_zero last_event_id)
                                 (Broadcaster.subscribe (world s0)).1) [])).
    { simpl. by rewrite lookup_insert_eq. }
    destruct (run_sse_phase _ _ _ _ _ _ Hrun Hc1) as (st2 & out2 & Hc2' & Hle).
    rewrite Hc2 in Hc2'. simplify_eq. simpl in Hle. lia.
  - match type of Hrun with run _ ?s = _ => set (s1 := s) in * end.
    assert (Hc1 : conns s1 !! c
                  = Some (Sse (SseBacklog (or_zero last_event_id) first others)
                            [backlog_frame first])).
    { subst s1. simpl. by rewrite lookup_insert_eq. }
    destruct (run_sse_backlog _ _ _ _ _ _ _ _ _ _ _ _ Hrun Hc1 Hc2) as [H1 H2].
    split; [by rewrite H1|]. split; [by apply H2|done].
Qed.

Lemma sse_backlog_is_a_snapshot_witness :
  valid (after [write_A; write_B])
  ∧ step (SseConnect 0 None) (after [write_A; write_B])
    = Some (after [write_A; write_B; SseConnect 0 None])
  ∧ run [write_C] (after [write_A; write_B; SseConnect 0 None])
    = Some (after [write_A; write_B; SseConnect 0 None; write_C])
  ∧ conns (after [write_A; write_B; SseConnect 0 None; write_C]) !! 0%nat
    = Some (Sse (SseBacklog 0 n1 [n2]) [backlog_frame n1])
  ∧ [backlog_frame n1] ++ (backlog_frame <$> [n2])
    = (backlog_frame
         <$> take 200 (filter (λ n, or_zero None < Notification.seq n)
                         (Store.rows (db (world (after [write_A; write_B])))))).
Proof.
  assert (H0 : valid (after [write_A; write_B])).
  { apply (run_valid [write_A; write_B] boot); [exact valid_boot|reflexivity]. }
  assert (H1 : step (SseConnect 0 None) (after [write_A; write_B])
               = Some (after [write_A; write_B; SseConnect 0 None])) by reflexivity.
  assert (H2 : run [write_C] (after [write_A; write_B; SseConnect 0 None])
               = Some (after [write_A; write_B; SseConnect 0 None; write_C]))
    by reflexivity.
  assert (H3 : conns (after [write_A; write_B; SseConnect 0 None; write_C]) !! 0%nat
               = Some (Sse (SseBacklog 0 n1 [n2]) [backlog_frame n1])) by reflexivity.
  split; [exact H0|]. split; [exact H1|]. split; [exact H2|]. split; [exact H3|].
  exact (proj1 (sse_backlog_is_a_snapshot (after [write_A; write_B])
                  (after [write_A; write_B; SseConnect 0 None])
                  (after [write_A; write_B; SseConnect 0 None; write_C])
                  0%nat None [write_C] 0 n1 [n2] [backlog_frame n1] H0 H1 H2 H3)).
Defined.

(** One step during the live loop. *)
Lemma sse_live_step a s s' c cursor q out queued cursor' q' out' :
  valid s →
  conns s !! c = Some (Sse (SseLive cursor q) out) →
  mailbox s q = to_dict <$> queued →
  step a s = Some s' →
  conns s' !! c = Some (Sse (SseLive cursor' q') out') →
  cursor' = cursor ∧ q' = q
  ∧ ∃ queued', mailbox s' q = to_dict <$> queued'
      ∧ sse_events out' ++ (backlog_frame <$> queued')
        = sse_events out ++ (backlog_frame <$> (queued ++ created_since s s')).
Proof.
  intros Hv Hc Hq H Hc'. destruct (decide (actor a = Some c)) as [Ha|Ha].
  - assert (Hdb : created_since s s' = [])
      by (eapply created_since_same_db, step_db; eauto).
    rewrite Hdb, app_nil_r.
    destruct a; simpl in Ha; simplify_eq; simpl in H; rewrite Hc in H; try done.
    + destruct (event_generator_live _ _ _ _ _) as [[[st' frames] w']|] eqn:E; [|done].
      simpl in H. simplify_eq. simpl in Hc'. rewrite lookup_insert_eq in Hc'.
      simplify_eq. unfold event_generator_live, wait_for in E. unfold mailbox in Hq.
      destruct disconnected; [by simplify_eq|].
      destruct (default [] (queues (world s) !! q)) as [|msg rest] eqn:Hmb.
      { case_decide; simplify_eq. split; [done|]. split; [done|].
        exists queued. unfold mailbox. simpl. rewrite Hmb.
        split; [done|]. by rewrite sse_events_app, app_nil_r. }
      destruct queued as [|m queued]; [done|]. simpl in Hq. injection Hq as -> ->.
      case_decide; simplify_eq.
      * rewrite to_dict_seq in E. simplify_eq. split; [done|]. split; [done|].
        exists queued. unfold mailbox. simpl. rewrite lookup_insert_eq.
        split; [done|]. rewrite sse_events_app. simpl. by rewrite <- app_assoc.
      * split; [done|]. split; [done|].
        exists (m :: queued). unfold mailbox. simpl. rewrite Hmb.
        split; [done|]. by rewrite sse_events_app, app_nil_r.
    + simplify_eq. simpl in Hc'. by rewrite lookup_insert_eq in Hc'.
  - rewrite (step_other_conn a s s' c) in Hc' by done. simplify_eq.
    split; [done|]. split; [done|]. exists (queued ++ created_since s s').
    split; [|done].
    rewrite (step_mailbox a s s' c _ _ Hv Hc eq_refl Ha H). by rewrite Hq, fmap_app.
Qed.

Lemma run_sse_live acts s s' c cursor q out queued cursor' q' out' :
  valid s →
  conns s !! c = Some (Sse (SseLive cursor q) out) →
  mailbox s q = to_dict <$> queued →
  run acts s = Some s' →
  conns s' !! c = Some (Sse (SseLive cursor' q') out') →
  cursor' = cursor ∧ q' = q
  ∧ ∃ queued', mailbox s' q = to_dict <$> queued'
      ∧ sse_events out' ++ (backlog_frame <$> queued')
        = sse_events out ++ (backlog_frame <$> (queued ++ created_since s s')).
Proof.
  revert s out queued.
  induction acts as [|a acts IH]; simpl; intros s out queued Hv Hc Hq.
  - intros [= <-] Hc'. simplify_eq. split; [done|]. split; [done|].
    exists queued. by rewrite created_since_refl, app_nil_r.
  - destruct (step a s) as [s1|] eqn:E; [|done]. simpl. intros Hrun Hc'.
    destruct (step_sse_phase _ _ _ _ _ _ E Hc) as (st1 & out1 & Hc1 & Hge).
    destruct (run_sse_phase _ _ _ _ _ _ Hrun Hc1) as (st2 & out2 & Hc2 & Hle).
    rewrite Hc' in Hc2. simplify_eq. destruct st1; simpl in Hle, Hge; try lia.
    destruct (sse_live_step _ _ _ _ _ _ _ _ _ _ _ Hv Hc Hq E Hc1)
      as (-> & -> & queued1 & Hq1 & Hm1).
    pose proof (step_valid _ _ _ Hv E) as Hv1.
    destruct (IH _ _ _ Hv1 Hc1 Hq1 Hrun Hc') as (-> & -> & queued' & Hq' & Hm2).
    split; [done|]. split; [done|]. exists queued'. split; [done|].
    rewrite (created_since_trans s s1 s') by eauto using step_rows, run_rows.
    rewrite Hm2, fmap_app, app_assoc, Hm1, !fmap_app, !app_assoc. done.
Qed.

Lemma sse_drain c cursor q (queued : list Notification.t) : ∀ s out,
  conns s !! c = Some (Sse (SseLive cursor q) out) →
  mailbox s q = to_dict <$> queued →
  ∃ s', run (repeat (SseWake c false 0) (length queued)) s = Some s'
        ∧ conns s' !! c
          = Some (Sse (SseLive cursor q) (out ++ (backlog_frame <$> queued)))
        ∧ mailbox s' q = [].
Proof.
  induction queued as [|m rest IH]; intros s out Hc Hq; simpl.
  - exists s. by rewrite app_nil_r.
  - rewrite Hc. simpl. unfold event_generator_live, wait_for.
    unfold mailbox in Hq. rewrite Hq. simpl.
    rewrite to_dict_seq. simpl.
    destruct (IH (mkSystem
                    (mkWorld (db (world s)) (_subscribers (world s))
                       (<[q := to_dict <$> rest]> (queues (world s))))
                    (<[c := Sse (SseLive cursor q) (out ++ [backlog_frame m])]>
                       (conns s)))
                (out ++ [backlog_frame m]))
      as (s' & Hrun & Hc' & Hq').
    { simpl. by rewrite lookup_insert_eq. }
    { unfold mailbox. simpl. by rewrite lookup_insert_eq. }
    exists s'. split; [exact Hrun|]. by rewrite Hc', <- app_assoc.
Qed.

(** X14.  Once the push-stream generator is in its live loop nothing is
    lost: between two reachable states in which the connection is in the
    loop, cursor and queue are the same, and the notification frames sent so
    far followed by the frames of the queued messages have grown by exactly
    the frames of the notifications created in between, in creation order;
    waking the generator once per queued message sends them all. *)
Theorem sse_live_loop_delivers (acts0 acts : list action) (s s' : System) (c : nat)
    (cursor cursor' : Z) (q q' : qid) (out out' : list sse_frame) :
  run acts0 boot = Some s →
  conns s !! c = Some (Sse (SseLive cursor q) out) →
  run acts s = Some s' →
  conns s' !! c = Some (Sse (SseLive cursor' q') out') →
  cursor' = cursor ∧ q' = q
  ∧ ∃ queued queued' : list Notification.t,
      mailbox s q = to_dict <$> queued
      ∧ mailbox s' q = to_dict <$> queued'
      ∧ sse_events out' ++ (backlog_frame <$> queued')
        = sse_events out ++ (backlog_frame <$> (queued ++ created_since s s'))
      ∧ ∃ s'', run (repeat (SseWake c false 0) (length queued')) s' = Some s''
               ∧ conns s'' !! c
                 = Some (Sse (SseLive cursor q) (out' ++ (backlog_frame <$> queued')))
               ∧ mailbox s'' q = [].
Proof.
  intros Hrun0 Hc Hrun Hc'.
  pose proof (run_valid acts0 boot s valid_boot Hrun0) as Hv.
  assert (Hok : sse_ok s (Sse (SseLive cursor q) out)).
  { eapply (run_sse_ok acts0 boot s valid_boot); [|exact Hrun0|exact Hc].
    intros c0 k0 H0. simpl in H0. by rewrite lookup_empty in H0. }
  destruct Hok as (sent & _ & _ & queued & Hq & _).
  destruct (run_sse_live _ _ _ _ _ _ _ _ _ _ _ Hv Hc Hq Hrun Hc')
    as (-> & -> & queued' & Hq' & Hm).
  split; [done|]. split; [done|]. exists queued, queued'.
  split; [done|]. split; [done|]. split; [done|].
  by apply sse_drain.
Qed.

Lemma sse_live_loop_delivers_witness :
  run [SseConnect 0 None] boot = Some (after [SseConnect 0 None])
  ∧ conns (after [SseConnect 0 None]) !! 0%nat = Some (Sse (SseLive 0 0%nat) [])
  ∧ run [write_A; SseWake 0 false 0; write_B] (after [SseConnect 0 None])
    = Some (after [SseConnect 0 None; write_A; SseWake 0 false 0; write_B])
  ∧ conns (after [SseConnect 0 None; write_A; SseWake 0 false 0; write_B]) !! 0%nat
    = Some (Sse (SseLive 0 0%nat) [backlog_frame n1])
  ∧ 0 = 0 ∧ 0%nat = 0%nat.
Proof.
  assert (H1 : run [SseConnect 0 None] boot = Some (after [SseConnect 0 None]))
    by reflexivity.
  assert (H2 : conns (after [SseConnect 0 None]) !! 0%nat
               = Some (Sse (SseLive 0 0%nat) [])) by reflexivity.
  assert (H3 : run [write_A; SseWake 0 false 0; write_B] (after [SseConnect 0 None])
               = Some (after [SseConnect 0 None; write_A; SseWake 0 false 0; write_B]))
    by reflexivity.
  assert (H4 : conns (after [SseConnect 0 None; write_A; SseWake 0 false 0; write_B])
                 !! 0%nat
               = Some (Sse (SseLive 0 0%nat) [backlog_frame n1])) by reflexivity.
  split; [exact H1|]. split; [exact H2|]. split; [exact H3|]. split; [exact H4|].
  destruct (sse_live_loop_delivers [SseConnect 0 None]
              [write_A; SseWake 0 false 0; write_B]
              (after [SseConnect 0 None])
              (after [SseConnect 0 None; write_A; SseWake 0 false 0; write_B])
              0%nat 0 0 0%nat 0%nat [] [backlog_frame n1] H1 H2 H3 H4) as (Hcur & Hq & _).
  split; [exact Hcur|exact Hq].
Defined.

(** ** The bidirectional stream against the table *)

(** X15.  A first message that is valid JSON but not an object is not
    answered with the protocol-violation code: [hello_msg.get] raises
    [AttributeError], which the handshake does not catch.  The handler ends
    with that exception, nothing written, its queue removed from the
    subscriber list and the table untouched. *)
Theorem handshake_non_object_raises (s : System) (c : nat) (q : qid)
    (out : list dict) (t : Z) (v : json) :
  valid s →
  conns s !! c = Some (Ws (WsHandshake q) out) →
  t < 5 →
  (∀ m, v ≠ JObj m) →
  ∃ s', step (WsFirst c (Some (t, Decoded v))) s = Some s'
        ∧ conns s' !! c = Some (Ws (WsRaised "AttributeError") [])
        ∧ (q ∉ _subscribers (world s'))
        ∧ (∀ q0, q0 ≠ q → q0 ∈ _subscribers (world s') ↔ q0 ∈ _subscribers (world s))
        ∧ db (world s') = db (world s)
        ∧ queues (world s') = queues (world s).
Proof.
  intros Hv Hc Ht Hv0.
  assert (Hout : out = []) by (by apply (valid_conn s Hv c _ Hc)).
  assert (Hin : q ∈ _subscribers (world s)) by (eapply valid_held; eauto).
  assert (Hhello : websocket_endpoint_hello q (Some (t, Decoded v)) (world s)
                   = Some (WsRaised "AttributeError",
                           Broadcaster.unsubscribe q (world s))).
  { unfold websocket_endpoint_hello, wait_for.
    rewrite decide_True by (unfold handshake_timeout; lia).
    destruct v as [| | | | |m]; try done. by destruct (Hv0 m). }
  eexists. simpl. rewrite Hc, Hhello. simpl. split; [done|].
  cbn [conns world]. rewrite lookup_insert_eq, Hout.
  unfold Broadcaster.unsubscribe. rewrite decide_True by done. simpl.
  split_and!; try done.
  - by apply not_elem_of_remove, Hv.
  - intros q0 Hne. split; [apply elem_of_remove|by apply elem_of_remove_ne].
Qed.

Lemma handshake_non_object_raises_witness :
  valid (after [WsAccept 0])
  ∧ conns (after [WsAccept 0]) !! 0%nat = Some (Ws (WsHandshake 0%nat) [])
  ∧ 1 < 5
  ∧ (∀ m, JArr [JInt 1] ≠ JObj m)
  ∧ ∃ s', step (WsFirst 0 (Some (1, Decoded (JArr [JInt 1])))) (after [WsAccept 0])
          = Some s'
          ∧ conns s' !! 0%nat = Some (Ws (WsRaised "AttributeError") [])
          ∧ (0%nat ∉ _subscribers (world s'))
          ∧ (∀ q0, q0 ≠ 0%nat →
               q0 ∈ _subscribers (world s')
               ↔ q0 ∈ _subscribers (world (after [WsAccept 0])))
          ∧ db (world s') = db (world (after [WsAccept 0]))
          ∧ queues (world s') = queues (world (after [WsAccept 0])).
Proof.
  assert (H0 : valid (after [WsAccept 0])).
  { apply (run_valid [WsAccept 0] boot); [exact valid_boot|reflexivity]. }
  assert (H1 : conns (after [WsAccept 0]) !! 0%nat = Some (Ws (WsHandshake 0%nat) []))
    by reflexivity.
  assert (H2 : 1 < 5) by lia.
  assert (H3 : ∀ m, JArr [JInt 1] ≠ JObj m) by (intros m; discriminate).
  split; [exact H0|]. split; [exact H1|]. split; [exact H2|]. split; [exact H3|].
  exact (handshake_non_object_raises (after [WsAccept 0]) 0%nat 0%nat [] 1
           (JArr [JInt 1]) H0 H1 H2 H3).
Defined.

Lemma Forall_rows_grow (rows new l : list Notification.t) :
  Forall (λ n, n ∈ rows) l → Forall (λ n, n ∈ rows ++ new) l.
Proof.
  intros H. eapply Forall_impl; [exact H|]. simpl. intros n Hn.
  apply elem_of_app. by left.
Qed.

Lemma ws_ok_other a s s' c k :
  valid s → actor a ≠ Some c → step a s = Some s' →
  conns s !! c = Some k → ws_ok s k → ws_ok s' k.
Proof.
  intros Hv Ha Hstep Hc Hok.
  pose proof (step_rows a s s' Hv Hstep) as Hrows.
  destruct k as [|st out]; [done|].
  destruct Hok as (sent & Hout & Hsent & Hst). exists sent.
  split; [done|]. rewrite Hrows. split; [by apply Forall_rows_grow|].
  assert (Hnew : Forall (λ n, n ∈ Store.rows (db (world s)) ++ created_since s s')
                   (created_since s s')).
  { apply Forall_forall. intros n Hn. apply elem_of_app. by right. }
  destruct st as [queue|queue backlog| | |]; try done.
  - destruct Hst as (queued & Hq & Hall).
    exists (queued ++ created_since s s'). split.
    + rewrite (step_mailbox a s s' c _ queue Hv Hc eq_refl Ha Hstep).
      by rewrite Hq, fmap_app.
    + apply Forall_app. split; [by apply Forall_rows_grow|done].
  - destruct Hst as (Hb & queued & Hq & Hall). split; [by apply Forall_rows_grow|].
    exists (queued ++ created_since s s'). split.
    + rewrite (step_mailbox a s s' c _ queue Hv Hc eq_refl Ha Hstep).
      by rewrite Hq, fmap_app.
    + apply Forall_app. split; [by apply Forall_rows_grow|done].
Qed.

Lemma step_ws_ok a s s' :
  valid s →
  (∀ c k, conns s !! c = Some k → ws_ok s k) →
  step a s = Some s' →
  ∀ c k, conns s' !! c = Some k → ws_ok s' k.
Proof.
  intros Hv Hall Hstep c k Hc'.
  destruct (decide (actor a = Some c)) as [Ha|Ha]; last first.
  { rewrite (step_other_conn a s s' c Ha Hstep) in Hc'.
    eapply ws_ok_other; eauto. }
  destruct a as [data uuid now engine|after limit|c0 lei|c0|c0 disc idle|c0|c0|c0 arr|c0|c0];
    simpl in Ha; simplify_eq; simpl in Hstep.
  - destruct (conns s !! c) eqn:Hc; [done|].
    destruct (event_generator_start _ _) as [[st frames] w'].
    simplify_eq. simpl in Hc'. rewrite lookup_insert_eq in Hc'. by simplify_eq.
  - destruct (conns s !! c) as [[[cursor item rest| |] out|]|] eqn:Hc; try done.
    destruct (event_generator_resume _ _ _) as [[st frames] w'].
    simplify_eq. simpl in Hc'. rewrite lookup_insert_eq in Hc'. by simplify_eq.
  - destruct (conns s !! c) as [[[|cursor queue|] out|]|] eqn:Hc; try done.
    destruct (event_generator_live _ _ _ _ _) as [[[st frames] w']|]; [|done].
    simpl in Hstep. simplify_eq. simpl in Hc'. rewrite lookup_insert_eq in Hc'.
    by simplify_eq.
  - destruct (conns s !! c) as [[[cursor item rest|cursor queue|] out|]|] eqn:Hc;
      try done; simplify_eq; simpl in Hc'; rewrite lookup_insert_eq in Hc';
      by simplify_eq.
  - destruct (conns s !! c) eqn:Hc; [done|]. simplify_eq.
    simpl in Hc'. rewrite lookup_insert_eq in Hc'. simplify_eq.
    exists []. split; [done|]. split; [done|]. exists [].
    unfold mailbox. simpl. by rewrite lookup_insert_eq.
  - destruct (conns s !! c) as [[|[queue| | | |] out]|] eqn:Hc; try done.
    destruct (Hall c _ Hc) as (sent & Hout & Hsent & queued & Hq & Hqueued).
    destruct (websocket_endpoint_hello _ _ _) as [[st w']|] eqn:E; [|done].
    simpl in Hstep. simplify_eq. simpl in Hc'. rewrite lookup_insert_eq in Hc'.
    simplify_eq. exists sent.
    destruct (websocket_endpoint_hello_world _ _ _ _ _ E) as [[-> [b ->]]|[-> Hst]].
    + split; [done|]. split; [done|]. split; [|by exists queued].
      unfold websocket_endpoint_hello, wait_for, Store.range in E.
      repeat case_match; simplify_eq.
      apply Forall_forall. intros x Hx.
      eapply elem_of_sublist in Hx; [|apply sublist_take].
      rewrite merge_sort_Permutation in Hx.
      by apply list_elem_of_filter in Hx as [_ ?].
    + simpl. rewrite (proj1 (untouched_unsubscribe queue queue (world s))).
      split; [done|]. split; [done|]. by destruct Hst as [->|[x ->]].
  - destruct (conns s !! c) as [[|[|queue backlog| | |] out]|] eqn:Hc; try done.
    destruct (Hall c _ Hc) as (sent & Hout & Hsent & Hb & queued & Hq & Hqueued).
    destruct (websocket_endpoint_send _ _ _) as [[[st frames] w']|] eqn:E; [|done].
    simpl in Hstep. simplify_eq. simpl in Hc'. rewrite lookup_insert_eq in Hc'.
    simplify_eq. unfold websocket_endpoint_send in E. unfold mailbox in Hq.
    destruct backlog as [|item rest].
    + destruct (default [] (queues (world s) !! queue)) as [|msg rest] eqn:Hmb; [done|].
      destruct queued as [|m queued]; [done|]. simpl in Hq. injection Hq as -> ->.
      simplify_eq. apply Forall_cons in Hqueued as [Hm Hqueued].
      exists (sent ++ [m]). split; [by rewrite fmap_app|].
      split; [apply Forall_app; split; [done|by constructor]|].
      split; [done|]. exists queued. unfold mailbox. simpl.
      by rewrite lookup_insert_eq.
    + simplify_eq. apply Forall_cons in Hb as [Hi Hb].
      exists (sent ++ [item]). split; [by rewrite fmap_app|].
      split; [apply Forall_app; split; [done|by constructor]|].
      split; [done|]. exists queued. done.
  - destruct (conns s !! c) as [[|[|queue backlog| | |] out]|] eqn:Hc; try done.
    destruct (Hall c _ Hc) as (sent & Hout & Hsent & _).
    simpl in Hstep. simplify_eq. simpl in Hc'. rewrite lookup_insert_eq in Hc'.
    simplify_eq. exists sent. simpl.
    rewrite (proj1 (untouched_unsubscribe queue queue (world s))). done.
Qed.

Lemma run_ws_ok acts s s' :
  valid s →
  (∀ c k, conns s !! c = Some k → ws_ok s k) →
  run acts s = Some s' →
  ∀ c k, conns s' !! c = Some k → ws_ok s' k.
Proof.
  revert s. induction acts as [|a acts IH]; simpl; intros s Hv Hall.
  - by intros [= <-].
  - destruct (step a s) as [s1|] eqn:E; [|done]. simpl.
    apply IH; [by eapply step_valid|by eapply step_ws_ok].
Qed.

(** X16.  A WebSocket client is only ever sent stored notifications: in any
    reachable state, every message written to a connection is
    [{"type": "notification", "data": d}] with [d] the [to_dict] of a row of
    the table, and the handler writes no other kind of message. *)
Theorem websocket_sends_stored_notifications (acts : list action) (s : System)
    (c : nat) (st : ws_state) (out : list dict) :
  run acts boot = Some s →
  conns s !! c = Some (Ws st out) →
  ∃ sent : list Notification.t,
    out = (notification_message ∘ to_dict <$> sent)
    ∧ Forall (λ n, n ∈ Store.rows (db (world s))) sent.
Proof.
  intros Hrun Hc.
  assert (Hok : ws_ok s (Ws st out)).
  { eapply (run_ws_ok acts boot s valid_boot); [|exact Hrun|exact Hc].
    intros c0 k0 H0. simpl in H0. by rewrite lookup_empty in H0. }
  destruct Hok as (sent & Hout & Hsent & _). eauto.
Qed.

Lemma websocket_sends_stored_notifications_witness :
  run (ws_race ++ [WsSend 0]) boot = Some (after (ws_race ++ [WsSend 0]))
  ∧ conns (after (ws_race ++ [WsSend 0])) !! 0%nat
    = Some (Ws (WsStreaming 0%nat [])
              [notification_message (to_dict n1); notification_message (to_dict n1)])
  ∧ ∃ sent : list Notification.t,
      [notification_message (to_dict n1); notification_message (to_dict n1)]
      = (notification_message ∘ to_dict <$> sent)
      ∧ Forall (λ n, n ∈ Store.rows (db (world (after (ws_race ++ [WsSend 0]))))) sent.
Proof.
  assert (H1 : run (ws_race ++ [WsSend 0]) boot = Some (after (ws_race ++ [WsSend 0])))
    by reflexivity.
  assert (H2 : conns (after (ws_race ++ [WsSend 0])) !! 0%nat
               = Some (Ws (WsStreaming 0%nat [])
                         [notification_message (to_dict n1);
                          notification_message (to_dict n1)])) by reflexivity.
  split; [exact H1|]. split; [exact H2|].
  exact (websocket_sends_stored_notifications (ws_race ++ [WsSend 0])
           (after (ws_race ++ [WsSend 0])) 0%nat (WsStreaming 0%nat [])
           [notification_message (to_dict n1); notification_message (to_dict n1)]
           H1 H2).
Defined.
